(** * linkedin-mcp: the scheduled-post store and its dispatch loop

    A shallow embedding of [src/linkedin_mcp/scheduler_db.py] and
    [src/linkedin_mcp/tools/scheduler.py].

    The SQLite table [scheduled_posts] is a list of rows in insertion
    (rowid) order.  Each SQL statement of the source is one function on
    that list.  Everything the process reads from outside (the wall
    clock, [uuid.uuid4], the LinkedIn SDK client, [datetime.fromisoformat])
    is an operation of the [Environment] class, threaded through the
    code as an explicit world value. *)

From Stdlib Require Import List String Ascii ZArith Lia Bool.
From Stdlib Require Import Sorted Permutation OrderedTypeEx DecimalString.
Import ListNotations.

Local Open Scope string_scope.
Local Open Scope Z_scope.

(** ** Python exceptions and results *)

(** The exceptions the modelled code can meet; the payload is [str(exc)]. *)
Inductive Exn : Type :=
| ValueError (msg : string)
| TypeError (msg : string)
| OverflowError (msg : string)
| IntegrityError (msg : string)
| SdkError (msg : string).

Definition str (e : Exn) : string :=
  match e with
  | ValueError m | TypeError m | OverflowError m
  | IntegrityError m | SdkError m => m
  end.

Inductive result (A : Type) : Type :=
| Ok (a : A)
| Raise (e : Exn).
Arguments Ok {A} a.
Arguments Raise {A} e.

(** ** SQLite primitives used by the queries *)

(** Comparison of two TEXT values under the default BINARY collation:
    byte-wise, a proper prefix sorts first.  This is what both
    [scheduled_time <= ?] and [ORDER BY scheduled_time ASC] use. *)
Definition text_leb (a b : string) : bool := String.leb a b.

(** [LIMIT n]: a negative [n] means no upper bound on the number of
    rows; otherwise at most [n] rows are produced. *)
Definition sql_limit {A : Type} (n : Z) (rows : list A) : list A :=
  if n <? 0 then rows else firstn (Z.to_nat n) rows.

(** A Python int bound to a statement parameter must fit a signed
    64-bit SQLite INTEGER. *)
Definition fits_int64 (n : Z) : bool :=
  (- 2 ^ 63 <=? n) && (n <=? 2 ^ 63 - 1).

(** ** Rows of [scheduled_posts] *)

Record Row : Type := mkRow {
  id : string;
  commentary : string;
  url : option string;
  visibility : string;
  scheduled_time : string;
  status : string;
  created_at : string;
  published_at : option string;
  post_urn : option string;
  error_message : option string;
  retry_count : Z
}.

Definition Table : Type := list Row.

(** [ORDER BY scheduled_time ASC] over rows scanned in rowid order:
    a stable insertion sort on the TEXT key. *)
Fixpoint insert_by_time (r : Row) (rows : list Row) : list Row :=
  match rows with
  | [] => [r]
  | x :: rest =>
      if text_leb (scheduled_time x) (scheduled_time r)
      then x :: insert_by_time r rest
      else r :: x :: rest
  end.

Definition order_by_scheduled_time (rows : list Row) : list Row :=
  fold_left (fun acc r => insert_by_time r acc) rows [].

(** [UPDATE scheduled_posts SET ... WHERE id = ?] *)
Definition update_where_id (post_id : string) (set : Row -> Row)
  (t : Table) : Table :=
  map (fun r => if (id r =? post_id)%string then set r else r) t.

(** ** class ScheduledPostsDB *)

(** [get]: [SELECT * ... WHERE id = ?] followed by [fetchone]. *)
Definition get (t : Table) (post_id : string) : option Row :=
  find (fun r => (id r =? post_id)%string) t.

(** [add], after [uuid.uuid4()] and [datetime.now(timezone.utc)] have
    been read: the INSERT fails on a duplicate primary key, otherwise
    the row is appended and read back. *)
Definition add (t : Table) (post_id created : string)
  (commentary_ scheduled_time_ : string) (url_ : option string)
  (visibility_ : string) : result (Table * option Row) :=
  match get t post_id with
  | Some _ =>
      Raise (IntegrityError "UNIQUE constraint failed: scheduled_posts.id")
  | None =>
      let t' := (t ++ [mkRow post_id commentary_ url_ visibility_
                         scheduled_time_ "pending" created None None None 0])%list in
      Ok (t', get t' post_id)
  end.

(** [list]: [if status:] is false for [None] and for the empty string. *)
Definition list_ (t : Table) (status_ : option string) (limit : Z)
  : result (list Row) :=
  if fits_int64 limit then
    match status_ with
    | Some s =>
        if (s =? "")%string then Ok (sql_limit limit (order_by_scheduled_time t))
        else Ok (sql_limit limit
                   (order_by_scheduled_time
                      (filter (fun r => (status r =? s)%string) t)))
    | None => Ok (sql_limit limit (order_by_scheduled_time t))
    end
  else Raise (OverflowError "Python int too large to convert to SQLite INTEGER").

(** The query of [get_due], with the ISO string of the current time
    as its parameter. *)
Definition is_due (now : string) (r : Row) : bool :=
  (status r =? "pending")%string && text_leb (scheduled_time r) now.

Definition get_due_at (now : string) (t : Table) : list Row :=
  order_by_scheduled_time (filter (is_due now) t).

Definition set_published (now urn : string) (r : Row) : Row :=
  mkRow (id r) (commentary r) (url r) (visibility r) (scheduled_time r)
    "published" (created_at r) (Some now) (Some urn)
    (error_message r) (retry_count r).

Definition set_failed (msg : string) (r : Row) : Row :=
  mkRow (id r) (commentary r) (url r) (visibility r) (scheduled_time r)
    "failed" (created_at r) (published_at r) (post_urn r)
    (Some msg) (retry_count r + 1).

Definition set_cancelled (r : Row) : Row :=
  mkRow (id r) (commentary r) (url r) (visibility r) (scheduled_time r)
    "cancelled" (created_at r) (published_at r) (post_urn r)
    (error_message r) (retry_count r).

(** [mark_published], with [now] the ISO string read from the clock. *)
Definition mark_published (t : Table) (now post_id urn : string)
  : Table * option Row :=
  let t' := update_where_id post_id (set_published now urn) t in
  (t', get t' post_id).

Definition mark_failed (t : Table) (post_id msg : string)
  : Table * option Row :=
  let t' := update_where_id post_id (set_failed msg) t in
  (t', get t' post_id).

Definition cancel (t : Table) (post_id : string) : Table * option Row :=
  match get t post_id with
  | None => (t, None)
  | Some row =>
      if negb (status row =? "pending")%string then (t, None)
      else
        let t' := update_where_id post_id set_cancelled t in
        (t', get t' post_id)
  end.

(** ** The world outside the process *)

(** A [datetime] value: naive (no tzinfo) or aware, the latter kept as
    microseconds since the epoch in UTC. *)
Inductive datetime : Type :=
| Naive (micros : Z)
| Aware (utc_micros : Z).

(** The methods of the LinkedIn SDK client that create a post.  The
    text-only one is what [tools/posts.py] and [run_scheduler] call, the
    one with a link is what [tools/media.py] calls. *)
Inductive SdkCall : Type :=
| create_post (commentary_ visibility_ : string)
| create_post_with_link (commentary_ url_ : string)
    (title description : option string) (visibility_ : string).

(** The article URL a call hands to the SDK, if any. *)
Definition call_url (c : SdkCall) : option string :=
  match c with
  | create_post _ _ => None
  | create_post_with_link _ u _ _ _ => Some u
  end.

Definition call_commentary (c : SdkCall) : string :=
  match c with
  | create_post k _ => k
  | create_post_with_link k _ _ _ _ => k
  end.

Definition call_visibility (c : SdkCall) : string :=
  match c with
  | create_post _ v => v
  | create_post_with_link _ _ _ _ v => v
  end.

Class Environment : Type := {
  World : Type;
  (** [datetime.now(timezone.utc)] *)
  utcnow : World -> World * Z;
  (** [.isoformat()] of an aware UTC datetime *)
  isoformat : Z -> string;
  (** [datetime.fromisoformat] *)
  fromisoformat : string -> result datetime;
  (** [str(uuid.uuid4())] *)
  uuid4 : World -> World * string;
  (** One SDK request followed by [result["postUrn"]]: the URN, or the
      exception raised on the way. *)
  client_call : World -> SdkCall -> World * result string
}.

(** What a run leaves behind besides the table: each SDK request with
    the answer it got, and each line written to standard output. *)
Inductive Event : Type :=
| Called (c : SdkCall) (answer : result string)
| Printed (line : string).

(** The values handed to [json.dumps]. *)
#[local] Unset Elimination Schemes.
Inductive Json : Type :=
| JNull
| JBool (b : bool)
| JInt (n : Z)
| JStr (s : string)
| JObj (fields : list (string * Json)).
#[local] Set Elimination Schemes.

(** [scheduled_time.replace("Z", "+00:00")] *)
Fixpoint replace_Z (s : string) : string :=
  match s with
  | EmptyString => EmptyString
  | String c rest =>
      if (c =? "Z")%char then ("+00:00" ++ replace_Z rest)%string
      else String c (replace_Z rest)
  end.

(** [_error_response] of [server.py]; no [httpx.HTTPStatusError] can
    reach it from the scheduler tools. *)
Definition _error_response (e : Exn) : Json :=
  JObj [("error", JBool true); ("message", JStr (str e))].

Section WithEnvironment.

Context {env : Environment}.

(** *** Store methods that read the clock or draw an id *)

Definition db_add (w : World) (t : Table) (commentary_ scheduled_time_ : string)
  (url_ : option string) (visibility_ : string)
  : World * result (Table * option Row) :=
  let '(w1, post_id) := uuid4 w in
  let '(w2, now) := utcnow w1 in
  (w2, add t post_id (isoformat now) commentary_ scheduled_time_ url_ visibility_).

Definition get_due (w : World) (t : Table) : World * list Row :=
  let '(w1, now) := utcnow w in
  (w1, get_due_at (isoformat now) t).

Definition db_mark_published (w : World) (t : Table) (post_id urn : string)
  : World * (Table * option Row) :=
  let '(w1, now) := utcnow w in
  (w1, mark_published t (isoformat now) post_id urn).

(** *** run_scheduler *)

(** The body of [for post in due]: the [try] block and its handler. *)
Definition dispatch_one (st : World * Table * list Event) (post : Row)
  : World * Table * list Event :=
  let '(w, t, out) := st in
  let request := create_post (commentary post) (visibility post) in
  let '(w1, outcome) := client_call w request in
  match outcome with
  | Ok urn =>
      let '(w2, (t', _)) := db_mark_published w1 t (id post) urn in
      (w2, t',
       (out ++ [Called request outcome;
                Printed ("Published: " ++ id post ++ " -> " ++ urn)%string])%list)
  | Raise e =>
      let '(t', _) := mark_failed t (id post) (str e) in
      (w1, t',
       (out ++ [Called request outcome;
                Printed ("Failed: " ++ id post ++ " -> " ++ str e)%string])%list)
  end.

(** [run_scheduler].  The credentials and the client built from them
    are part of the world; the table is the one behind [get_db()]. *)
Definition run_scheduler (w : World) (t : Table)
  : World * Table * list Event :=
  let '(w0, due) := get_due w t in
  match due with
  | [] => (w0, t, [Printed "No posts due for publishing."])
  | _ :: _ => fold_left dispatch_one due (w0, t, [])
  end.

(** *** tools/scheduler.py *)

Definition schedule_post (w : World) (t : Table)
  (commentary_ scheduled_time_ : string) (url_ : option string)
  (visibility_ : string) : World * Table * Json :=
  match fromisoformat (replace_Z scheduled_time_) with
  | Raise e => (w, t, _error_response e)
  | Ok scheduled_dt =>
      let '(w1, now) := utcnow w in
      match scheduled_dt with
      | Naive _ =>
          (w1, t, _error_response
             (TypeError "can't compare offset-naive and offset-aware datetimes"))
      | Aware at_ =>
          if at_ <=? now then
            (w1, t, JObj [("error", JBool true);
                          ("message", JStr "scheduled_time must be in the future")])
          else
            let '(w2, added) := db_add w1 t commentary_ scheduled_time_
                                  url_ visibility_ in
            match added with
            | Raise e => (w2, t, _error_response e)
            | Ok (t', None) =>
                (w2, t', _error_response
                   (TypeError "'NoneType' object is not subscriptable"))
            | Ok (t', Some post) =>
                (w2, t',
                 JObj [("postId", JStr (id post));
                       ("scheduledTime", JStr (scheduled_time post));
                       ("status", JStr (status post));
                       ("message",
                        JStr ("Post scheduled for " ++ scheduled_time_)%string)])
            end
      end
  end.

Definition cancel_scheduled_post (t : Table) (post_id : string)
  : Table * Json :=
  match cancel t post_id with
  | (t', None) =>
      (t', JObj [("error", JBool true);
                 ("message",
                  JStr ("Post not found or not in pending status: "
                        ++ post_id)%string)])
  | (t', Some result_) =>
      (t', JObj [("postId", JStr (id result_));
                 ("status", JStr "cancelled");
                 ("message", JStr "Scheduled post cancelled successfully");
                 ("success", JBool true)])
  end.

End WithEnvironment.

(** ** Sequences of store operations *)

(** One call of a mutating method of [ScheduledPostsDB], with the
    values it read from the clock and from [uuid4] made explicit. *)
Inductive Op : Type :=
| OpAdd (post_id created commentary_ scheduled_time_ : string)
    (url_ : option string) (visibility_ : string)
| OpMarkPublished (now post_id urn : string)
| OpMarkFailed (post_id msg : string)
| OpCancel (post_id : string).

Definition apply_op (t : Table) (o : Op) : Table :=
  match o with
  | OpAdd i c k s u v =>
      match add t i c k s u v with
      | Ok (t', _) => t'
      | Raise _ => t
      end
  | OpMarkPublished now i urn => fst (mark_published t now i urn)
  | OpMarkFailed i msg => fst (mark_failed t i msg)
  | OpCancel i => fst (cancel t i)
  end.

Definition run_ops (ops : list Op) (t : Table) : Table :=
  fold_left apply_op ops t.

(** [spares_published] holds of a sequence of operations in which no
    [mark_failed] names the id of a row that is published at that
    moment. *)
Definition is_published (t : Table) (post_id : string) : bool :=
  match get t post_id with
  | Some r => (status r =? "published")%string
  | None => false
  end.

Fixpoint spares_published (t : Table) (ops : list Op) : bool :=
  match ops with
  | [] => true
  | o :: rest =>
      match o with
      | OpMarkFailed i _ => negb (is_published t i)
      | OpAdd _ _ _ _ _ _ | OpMarkPublished _ _ _ | OpCancel _ => true
      end && spares_published (apply_op t o) rest
  end.

(** The SDK requests of a run, and the answers they got, in order. *)
Fixpoint calls (out : list Event) : list SdkCall :=
  match out with
  | [] => []
  | Called c _ :: rest => c :: calls rest
  | Printed _ :: rest => calls rest
  end.

Fixpoint answers (out : list Event) : list (result string) :=
  match out with
  | [] => []
  | Called _ a :: rest => a :: answers rest
  | Printed _ :: rest => answers rest
  end.

(** Whether a tool response is the structured failure
    [{"error": true, "message": ...}]. *)
Definition is_error_response (j : Json) : bool :=
  match j with
  | JObj (("error", JBool true) :: ("message", JStr _) :: _) => true
  | _ => false
  end.

(** ** A scripted environment

    A stand-in for the outside world with which the code can be run on
    concrete inputs: the clock readings, the ids and the SDK answers are
    taken from three scripts, in order.  [isoformat] and [fromisoformat]
    are tabulated on the few values the examples use, where they agree
    with CPython. *)
Module Scripted.

Record Script : Type := mkScript {
  clock : list Z;
  ids : list string;
  sdk : list (result string)
}.

Definition read_clock (w : Script) : Script * Z :=
  match clock w with
  | [] => (w, 0)
  | n :: rest => (mkScript rest (ids w) (sdk w), n)
  end.

Definition draw_id (w : Script) : Script * string :=
  match ids w with
  | [] => (w, "00000000-0000-4000-8000-000000000000")
  | i :: rest => (mkScript (clock w) rest (sdk w), i)
  end.

Definition answer (w : Script) (c : SdkCall) : Script * result string :=
  match sdk w with
  | [] => (w, Raise (SdkError "connection refused"))
  | a :: rest => (mkScript (clock w) (ids w) rest, a)
  end.

Definition iso_table (n : Z) : string :=
  if n =? 1767225600000000 then "2026-01-01T00:00:00+00:00"
  else if n =? 1767225601000000 then "2026-01-01T00:00:01+00:00"
  else if n =? 1893456000000000 then "2030-01-01T00:00:00+00:00"
  else "1970-01-01T00:00:00+00:00".

Definition parse_table (s : string) : result datetime :=
  if (s =? "2099-12-31T23:59:59+00:00")%string
  then Ok (Aware 4102444799000000)
  else if (s =? "2020-01-01T00:00:00+00:00")%string
  then Ok (Aware 1577836800000000)
  else if (s =? "2099-12-31T23:59:59")%string
  then Ok (Naive 4102444799000000)
  else Raise (ValueError ("Invalid isoformat string: " ++ s)%string).

#[export] Instance environment : Environment := {|
  World := Script;
  utcnow := read_clock;
  isoformat := iso_table;
  fromisoformat := parse_table;
  uuid4 := draw_id;
  client_call := answer
|}.

End Scripted.

(** ** Vocabulary of the statements *)

(** Ascending order of scheduled_time, as [ORDER BY] produces it. *)
Definition time_le (a b : Row) : Prop :=
  text_leb (scheduled_time a) (scheduled_time b) = true.

(** An update that leaves the primary key alone. *)
Definition keeps_id (f : Row -> Row) : Prop := forall r, id (f r) = id r.

(** The response of [cancel_scheduled_post] when [cancel] refuses. *)
Definition refusal_response (post_id : string) : Json :=
  JObj [("error", JBool true);
        ("message",
         JStr ("Post not found or not in pending status: " ++ post_id)%string)].

(** No row with this id is pending, and there is one. *)
Definition never_pending (i : string) (t : Table) : Prop :=
  get t i <> None
  /\ forall x, In x t -> id x = i -> status x <> "pending".

(** A published row carries both fields of its publication. *)
Definition published_has_fields (r : Row) : Prop :=
  status r = "published" -> published_at r <> None /\ post_urn r <> None.

(** The two fields of a publication are there exactly on a published
    row. *)
Definition fields_iff_published (r : Row) : Prop :=
  (published_at r <> None <-> status r = "published")
  /\ (post_urn r <> None <-> status r = "published").

(** Primary key: no two rows share an id. *)
Definition unique_ids (t : Table) : Prop := NoDup (map id t).

(** The request [run_scheduler] builds for a due post. *)
Definition request (p : Row) : SdkCall :=
  create_post (commentary p) (visibility p).

(** What the handler of a failed request records on the row. *)
Definition recorded_failure (p : Row) (e : Exn) (r : Row) : Prop :=
  status r = "failed"
  /\ error_message r = Some (str e)
  /\ retry_count r = retry_count p + 1.

(** How the row [r] stored for the due post [p] reflects the answer
    [a] its request got. *)
Definition outcome_row (a : result string) (p r : Row) : Prop :=
  match a with
  | Raise e => r = set_failed (str e) p
  | Ok urn => exists now, r = set_published now urn p
  end.

(** ** Sample rows for the worked examples *)

Definition sample_row (post_id status_ when : string) (url_ : option string)
  : Row :=
  mkRow post_id "hello" url_ "PUBLIC" when status_
    "2026-01-01T00:00:00+00:00" None None None 0.

Definition cancelled_post : Row :=
  sample_row "a" "cancelled" "2030-01-01T00:00:00Z" None.

Definition published_post : Row :=
  sample_row "b" "published" "2030-01-01T00:00:00Z" None.

Definition pending_post : Row :=
  sample_row "a" "pending" "2030-01-01T00:00:00Z" None.

(** A short history: a post is created, published, and then marked
    failed. *)
Definition publish_then_fail : list Op :=
  [OpAdd "a" "2026-01-01T00:00:00+00:00" "hello" "2030-01-01T00:00:00Z"
     None "PUBLIC";
   OpMarkPublished "2030-01-01T00:00:01+00:00" "a" "urn:li:share:1";
   OpMarkFailed "a" "boom"].

(** A history in which a post fails twice and is published in the
    end. *)
Definition fail_twice_then_publish : list Op :=
  [OpAdd "a" "2026-01-01T00:00:00+00:00" "hello" "2030-01-01T00:00:00Z"
     None "PUBLIC";
   OpMarkFailed "a" "boom";
   OpMarkFailed "a" "boom again";
   OpMarkPublished "2030-01-01T00:00:01+00:00" "a" "urn:li:share:1"].

(** The row that history ends with. *)
Definition published_after_failures : Row :=
  mkRow "a" "hello" None "PUBLIC" "2030-01-01T00:00:00Z" "published"
    "2026-01-01T00:00:00+00:00" (Some "2030-01-01T00:00:01+00:00")
    (Some "urn:li:share:1") (Some "boom again") 2.

(** A script for one run: the clock is read by [get_due] and once per
    published post, and the SDK gives the listed answers. *)
Definition one_run (sdk_answers : list (result string)) : Scripted.Script :=
  Scripted.mkScript [1767225600000000; 1767225601000000] [] sdk_answers.

(** A due post with an article link attached. *)
Definition post_with_link : Row :=
  sample_row "a" "pending" "2025-12-31T00:00:00Z"
    (Some "https://example.com/article").

(** Two due posts. *)
Definition pending_2025_12_30 : Row :=
  sample_row "a" "pending" "2025-12-30T00:00:00Z" None.

Definition pending_2025_12_31 : Row :=
  sample_row "b" "pending" "2025-12-31T00:00:00Z" None.

Definition two_due : Table := [pending_2025_12_30; pending_2025_12_31].

(** A script for one call of [schedule_post]. *)
Definition one_request : Scripted.Script :=
  Scripted.mkScript [1767225600000000; 1767225601000000]
    ["0b0e7a3c-5d1f-4c57-9c49-2f6f3d8f6a11"] [].

(** ** The read-only tools of tools/scheduler.py *)

Definition json_of_text (o : option string) : Json :=
  match o with
  | Some s => JStr s
  | None => JNull
  end.

(** [dict(row)]: one key per column, in the order of the schema. *)
Definition dict_of_row (r : Row) : Json :=
  JObj [("id", JStr (id r));
        ("commentary", JStr (commentary r));
        ("url", json_of_text (url r));
        ("visibility", JStr (visibility r));
        ("scheduled_time", JStr (scheduled_time r));
        ("status", JStr (status r));
        ("created_at", JStr (created_at r));
        ("published_at", json_of_text (published_at r));
        ("post_urn", json_of_text (post_urn r));
        ("error_message", json_of_text (error_message r));
        ("retry_count", JInt (retry_count r))].

Definition get_scheduled_post (t : Table) (post_id : string) : Json :=
  match get t post_id with
  | None =>
      JObj [("error", JBool true);
            ("message",
             JStr ("Scheduled post not found: " ++ post_id)%string)]
  | Some post =>
      JObj [("post", dict_of_row post);
            ("message", JStr ("Status: " ++ status post)%string)]
  end.

(** The dictionary [list_scheduled_posts] hands to [json.dumps] on
    success: its three keys as the fields of a record. *)
Record Listing : Type := mkListing {
  posts : list Json;
  count : Z;
  message : string
}.

(** [str(n)] for the length of a list. *)
Definition decimal (n : nat) : string :=
  NilZero.string_of_uint (Nat.to_uint n).

(** [status or 'all'] *)
Definition status_or_all (status_ : option string) : string :=
  match status_ with
  | Some s => if (s =? "")%string then "all" else s
  | None => "all"
  end.

Definition list_scheduled_posts (t : Table) (status_ : option string)
  (limit : Z) : Json + Listing :=
  match list_ t status_ limit with
  | Raise e => inl (_error_response e)
  | Ok rows =>
      inr (mkListing (map dict_of_row rows)
             (Z.of_nat (List.length rows))
             ("Found " ++ decimal (List.length rows) ++ " "
              ++ status_or_all status_ ++ " scheduled posts")%string)
  end.

(** ** tools/auth.py: _mask_token

    The characters of the token are the elements of the string. *)
Definition _mask_token (token : string) : string :=
  if (token =? "")%string || (String.length token <? 12)%nat then "****"
  else (substring 0 4 token ++ "..."
        ++ substring (String.length token - 4) 4 token)%string.

(** ** More vocabulary *)

(** The columns no method of the store writes after the INSERT. *)
Definition same_post (r r' : Row) : Prop :=
  id r' = id r
  /\ commentary r' = commentary r
  /\ url r' = url r
  /\ visibility r' = visibility r
  /\ scheduled_time r' = scheduled_time r
  /\ created_at r' = created_at r.

(** How many [mark_failed] of a sequence name the id [i]. *)
Definition hits_failed (i : string) (o : Op) : bool :=
  match o with
  | OpMarkFailed j _ => (j =? i)%string
  | _ => false
  end.

Definition failures_of (i : string) (ops : list Op) : nat :=
  List.length (filter (hits_failed i) ops).

(** A row no dispatch has touched. *)
Definition untouched (r : Row) : Prop :=
  published_at r = None /\ post_urn r = None
  /\ error_message r = None /\ retry_count r = 0.

(** What holds of every row of a table built by the store alone. *)
Definition consistent_row (r : Row) : Prop :=
  (status r = "pending" \/ status r = "published"
   \/ status r = "failed" \/ status r = "cancelled")
  /\ 0 <= retry_count r
  /\ (error_message r = None <-> retry_count r = 0)
  /\ (post_urn r = None <-> published_at r = None)
  /\ (status r = "failed" -> error_message r <> None)
  /\ (status r = "pending" \/ status r = "cancelled" -> untouched r).

(** The rows the WHERE clause of [list] lets through: all of them
    when [status] is [None] or empty. *)
Definition wanted (status_ : option string) (r : Row) : bool :=
  match status_ with
  | Some s => (s =? "")%string || (status r =? s)%string
  | None => true
  end.

(** The response of [schedule_post] when the post is stored. *)
Definition scheduled_response (post_id scheduled_time_ : string) : Json :=
  JObj [("postId", JStr post_id);
        ("scheduledTime", JStr scheduled_time_);
        ("status", JStr "pending");
        ("message", JStr ("Post scheduled for " ++ scheduled_time_)%string)].

(** The response of [cancel_scheduled_post] when the post is
    cancelled. *)
Definition cancelled_response (post_id : string) : Json :=
  JObj [("postId", JStr post_id);
        ("status", JStr "cancelled");
        ("message", JStr "Scheduled post cancelled successfully");
        ("success", JBool true)].

(** The line [run_scheduler] prints for a post, given the answer to
    its request. *)
Definition outcome_line (p : Row) (a : result string) : string :=
  match a with
  | Ok urn => ("Published: " ++ id p ++ " -> " ++ urn)%string
  | Raise e => ("Failed: " ++ id p ++ " -> " ++ str e)%string
  end.

(** What one turn of the loop adds to the events of a run. *)
Definition turn (pa : Row * result string) : list Event :=
  [Called (request (fst pa)) (snd pa);
   Printed (outcome_line (fst pa) (snd pa))].

(** The answers the SDK gives to the requests of a run, read off
    [client_call] alone.  The world goes from one request to the next;
    after a success it first passes the clock reading of
    [mark_published]. *)
Section Answers.

Context {env : Environment}.

Fixpoint sdk_answers (w : World) (due : list Row) : list (result string) :=
  match due with
  | [] => []
  | p :: rest =>
      let '(w1, a) := client_call w (request p) in
      a :: sdk_answers
             (match a with
              | Ok _ => fst (utcnow w1)
              | Raise _ => w1
              end) rest
  end.

End Answers.

(** Whether the character "Z" occurs in a string. *)
Fixpoint has_Z (s : string) : bool :=
  match s with
  | EmptyString => false
  | String c rest => (c =? "Z")%char || has_Z rest
  end.

(** The row the INSERT of [add] writes. *)
Definition inserted_row (post_id created commentary_ scheduled_time_ : string)
  (url_ : option string) (visibility_ : string) : Row :=
  mkRow post_id commentary_ url_ visibility_ scheduled_time_ "pending"
    created None None None 0.

(** Two pending posts and a published one, out of time order. *)
Definition mixed_table : Table :=
  [sample_row "c" "pending" "2027-03-01T00:00:00Z" None;
   published_post;
   sample_row "d" "pending" "2026-06-01T00:00:00Z" None].

(** ** The instant a timestamp denotes

    [instant_of] reads an ISO-8601 text of the shape
    [YYYY-MM-DDTHH:MM:SS], with an optional fraction of six digits and
    an offset [Z] or [+HH:MM] or [-HH:MM], and gives the instant in
    microseconds since the epoch: the instant of the aware [datetime]
    that [schedule_post] compares with the clock, and the instant the
    [isoformat] text of a clock reading stands for.  A text without
    offset denotes no instant. *)

Definition digit (c : ascii) : option Z :=
  let n := Z.of_N (N_of_ascii c) in
  if (48 <=? n) && (n <=? 57) then Some (n - 48) else None.

Fixpoint digits (s : string) (acc : Z) : option Z :=
  match s with
  | EmptyString => Some acc
  | String c rest =>
      match digit c with
      | Some d => digits rest (10 * acc + d)
      | None => None
      end
  end.

(** A field of exactly [width] digits starting at [pos]. *)
Definition field (pos width : nat) (s : string) : option Z :=
  let f := substring pos width s in
  if (String.length f =? width)%nat then digits f 0 else None.

(** Days from 1970-01-01 to the given day of the proleptic Gregorian
    calendar. *)
Definition days_from_civil (y m d : Z) : Z :=
  let y' := if m <=? 2 then y - 1 else y in
  let era := y' / 400 in
  let yoe := y' - era * 400 in
  let mp := if 2 <? m then m - 3 else m + 9 in
  let doy := (153 * mp + 2) / 5 + d - 1 in
  let doe := yoe * 365 + yoe / 4 - yoe / 100 + doy in
  era * 146097 + doe - 719468.

(** The offset at the end of the text, in seconds east of UTC. *)
Definition offset_of (s : string) : option Z :=
  if (s =? "Z")%string then Some 0
  else if (String.length s =? 6)%nat && (substring 3 1 s =? ":")%string then
    match field 1 2 s, field 4 2 s with
    | Some h, Some m =>
        if (substring 0 1 s =? "+")%string then Some (h * 3600 + m * 60)
        else if (substring 0 1 s =? "-")%string then Some (- (h * 3600 + m * 60))
        else None
    | _, _ => None
    end
  else None.

(** The fraction and the offset that follow the seconds. *)
Definition tail_of (s : string) : option (Z * Z) :=
  if (substring 0 1 s =? ".")%string then
    match field 1 6 s, offset_of (substring 7 (String.length s - 7) s) with
    | Some us, Some off => Some (us, off)
    | _, _ => None
    end
  else
    match offset_of s with
    | Some off => Some (0, off)
    | None => None
    end.

Definition instant_of (s : string) : option Z :=
  if (substring 4 1 s =? "-")%string && (substring 7 1 s =? "-")%string
     && (substring 10 1 s =? "T")%string
     && (substring 13 1 s =? ":")%string && (substring 16 1 s =? ":")%string
  then
    match field 0 4 s, field 5 2 s, field 8 2 s,
          field 11 2 s, field 14 2 s, field 17 2 s,
          tail_of (substring 19 (String.length s - 19) s) with
    | Some y, Some mo, Some d, Some h, Some mi, Some sec, Some (us, off) =>
        if (1 <=? mo) && (mo <=? 12) && (1 <=? d) && (d <=? 31)
           && (h <? 24) && (mi <? 60) && (sec <? 60)
        then Some ((days_from_civil y mo d * 86400
                    + h * 3600 + mi * 60 + sec - off) * 1000000 + us)
        else None
    | _, _, _, _, _, _, _ => None
    end
  else None.

(** Three pending posts whose scheduled_time carries another offset
    than the clock text does. *)
Definition post_at_tokyo_nine : Row :=
  sample_row "k" "pending" "2026-01-01T09:00:00+09:00" None.

Definition post_at_zulu_midnight : Row :=
  sample_row "z" "pending" "2026-01-01T00:00:00Z" None.

Definition post_at_new_york_midnight : Row :=
  sample_row "n" "pending" "2026-01-01T00:00:00-05:00" None.

(** * Properties *)

Create HintDb store.

Ltac break_hyps :=
  repeat match goal with
         | H : exists _, _ |- _ => destruct H
         | H : _ /\ _ |- _ => destruct H
         end.

(** ** TEXT order *)

Lemma text_leb_total (a b : string) :
  text_leb a b = false -> text_leb b a = true.
Proof.
  unfold text_leb. intros H.
  destruct (String.leb_total a b) as [Hab | Hba]; congruence.
Qed.

Lemma text_leb_lt_or_eq (a b : string) :
  text_leb a b = true <-> String_as_OT.lt a b \/ a = b.
Proof.
  unfold text_leb, String.leb.
  destruct (String.compare a b) eqn:E.
  - apply String_as_OT.cmp_eq in E. intuition.
  - apply String_as_OT.cmp_lt in E. intuition.
  - split; [discriminate |].
    intros [L | ->].
    + apply String_as_OT.cmp_lt in L.
      unfold String_as_OT.cmp in L. congruence.
    + assert (String.compare b b = Eq) by (apply String_as_OT.cmp_eq; reflexivity).
      congruence.
Qed.

Lemma text_leb_trans (a b c : string) :
  text_leb a b = true -> text_leb b c = true -> text_leb a c = true.
Proof.
  rewrite !text_leb_lt_or_eq.
  intros [Hab | ->] [Hbc | ->]; auto.
  left. eapply String_as_OT.lt_trans; eassumption.
Qed.

(** ** ORDER BY *)

Lemma insert_by_time_perm (r : Row) (rows : list Row) :
  Permutation (insert_by_time r rows) (r :: rows).
Proof.
  induction rows as [| x rest IH]; simpl.
  - apply Permutation_refl.
  - destruct (text_leb (scheduled_time x) (scheduled_time r)).
    + eapply perm_trans; [apply perm_skip, IH | apply perm_swap].
    + apply Permutation_refl.
Qed.

Lemma fold_insert_perm (rows acc : list Row) :
  Permutation (fold_left (fun a r => insert_by_time r a) rows acc)
    (rows ++ acc)%list.
Proof.
  revert acc. induction rows as [| x rest IH]; intros acc; simpl.
  - apply Permutation_refl.
  - eapply perm_trans; [apply IH |].
    eapply perm_trans;
      [apply Permutation_app_head, insert_by_time_perm |].
    apply Permutation_sym, Permutation_middle.
Qed.

Lemma order_by_scheduled_time_perm (rows : list Row) :
  Permutation (order_by_scheduled_time rows) rows.
Proof.
  unfold order_by_scheduled_time.
  rewrite <- (app_nil_r rows) at 2. apply fold_insert_perm.
Qed.

Lemma order_by_scheduled_time_In (rows : list Row) (r : Row) :
  In r (order_by_scheduled_time rows) <-> In r rows.
Proof.
  split; apply Permutation_in;
    [| apply Permutation_sym]; apply order_by_scheduled_time_perm.
Qed.

Lemma order_by_scheduled_time_length (rows : list Row) :
  List.length (order_by_scheduled_time rows) = List.length rows.
Proof. apply Permutation_length, order_by_scheduled_time_perm. Qed.

Lemma insert_by_time_sorted (r : Row) (rows : list Row) :
  StronglySorted time_le rows ->
  StronglySorted time_le (insert_by_time r rows).
Proof.
  induction 1 as [| x rest Hs IH Hall]; simpl.
  - constructor; [constructor | constructor].
  - destruct (text_leb (scheduled_time x) (scheduled_time r)) eqn:E.
    + constructor; [exact IH |].
      rewrite Forall_forall in *. intros y Hy.
      apply (Permutation_in _ (insert_by_time_perm r rest)) in Hy.
      destruct Hy as [<- | Hy]; [exact E | auto].
    + apply text_leb_total in E.
      constructor; [constructor; assumption |].
      constructor; [exact E |].
      rewrite Forall_forall in *. intros y Hy.
      unfold time_le. eapply text_leb_trans; [exact E | apply Hall, Hy].
Qed.

Lemma fold_insert_sorted (rows acc : list Row) :
  StronglySorted time_le acc ->
  StronglySorted time_le (fold_left (fun a r => insert_by_time r a) rows acc).
Proof.
  revert acc. induction rows as [| x rest IH]; intros acc Hacc; simpl.
  - exact Hacc.
  - apply IH, insert_by_time_sorted, Hacc.
Qed.

Lemma order_by_scheduled_time_sorted (rows : list Row) :
  StronglySorted time_le (order_by_scheduled_time rows).
Proof. apply fold_insert_sorted. constructor. Qed.

(** ** Reading and updating by id *)

Lemma set_published_keeps_id now urn : keeps_id (set_published now urn).
Proof. intros r. reflexivity. Qed.

Lemma set_failed_keeps_id msg : keeps_id (set_failed msg).
Proof. intros r. reflexivity. Qed.

Lemma set_cancelled_keeps_id : keeps_id set_cancelled.
Proof. intros r. reflexivity. Qed.

#[local] Hint Resolve set_published_keeps_id set_failed_keeps_id
  set_cancelled_keeps_id : store.

Lemma get_None (t : Table) (i : string) :
  get t i = None <-> (forall r, In r t -> id r <> i).
Proof.
  unfold get. split.
  - intros H r Hin Heq.
    apply (find_none _ _ H) in Hin. apply String.eqb_neq in Hin. auto.
  - intros H. induction t as [| x rest IH]; simpl; [reflexivity |].
    destruct (String.eqb_spec (id x) i) as [Heq | Hne].
    + exfalso. apply (H x); simpl; auto.
    + apply IH. intros r Hr. apply H. simpl; auto.
Qed.

Lemma get_update_same (f : Row -> Row) (t : Table) (i : string) :
  keeps_id f -> get (update_where_id i f t) i = option_map f (get t i).
Proof.
  intros Hf. unfold get, update_where_id.
  induction t as [| x rest IH]; simpl; [reflexivity |].
  destruct (String.eqb_spec (id x) i) as [Heq | Hne].
  - rewrite Hf. subst i. rewrite String.eqb_refl. reflexivity.
  - apply String.eqb_neq in Hne. rewrite Hne. exact IH.
Qed.

Lemma get_update_other (f : Row -> Row) (t : Table) (i j : string) :
  keeps_id f -> j <> i -> get (update_where_id i f t) j = get t j.
Proof.
  intros Hf Hne. unfold get, update_where_id.
  induction t as [| x rest IH]; simpl; [reflexivity |].
  destruct (String.eqb_spec (id x) i) as [Heq | Hxi].
  - rewrite Hf.
    assert (Hx : (id x =? j)%string = false)
      by (apply String.eqb_neq; congruence).
    rewrite Hx. exact IH.
  - destruct (id x =? j)%string; [reflexivity | exact IH].
Qed.

Lemma In_update (f : Row -> Row) (t : Table) (i : string) (x : Row) :
  In x (update_where_id i f t) ->
  exists r, In r t /\ x = (if (id r =? i)%string then f r else r).
Proof.
  unfold update_where_id. intros H. apply in_map_iff in H.
  destruct H as [r [Hx Hr]]. exists r. auto.
Qed.

(** ** C3: the due-item query *)

Lemma get_due_at_In (now : string) (t : Table) (r : Row) :
  In r (get_due_at now t) <->
  In r t /\ status r = "pending" /\ text_leb (scheduled_time r) now = true.
Proof.
  unfold get_due_at.
  rewrite order_by_scheduled_time_In, filter_In.
  unfold is_due. rewrite andb_true_iff, String.eqb_eq. tauto.
Qed.

(** X23.  In the TEXT order of the query (byte-wise comparison of
    the stored strings), [get_due_at now] returns exactly the rows whose
    status is pending and whose scheduled_time is at most [now], each as
    often as the table holds it, in ascending TEXT order of
    scheduled_time; no published, cancelled or failed row is returned,
    whatever its scheduled_time. *)
Theorem get_due_at_exact (now : string) (t : Table) :
  (forall r, In r (get_due_at now t) <->
             In r t /\ status r = "pending"
             /\ text_leb (scheduled_time r) now = true)
  /\ Permutation (get_due_at now t) (filter (is_due now) t)
  /\ StronglySorted time_le (get_due_at now t)
  /\ (forall r, In r (get_due_at now t) ->
                status r <> "published" /\ status r <> "cancelled"
                /\ status r <> "failed").
Proof.
  split; [intros r; apply get_due_at_In |].
  split; [apply order_by_scheduled_time_perm |].
  split; [apply order_by_scheduled_time_sorted |].
  intros r Hr. apply get_due_at_In in Hr. destruct Hr as [_ [Hs _]].
  rewrite Hs. repeat split; discriminate.
Qed.

(** A post scheduled for 2030 is not due in 2029 and is due in 2031;
    a cancelled one never is. *)
Example get_due_at_2029 :
  get_due_at "2029-01-01T00:00:00Z" [pending_post] = [].
Proof. reflexivity. Qed.

Example get_due_at_2031 :
  get_due_at "2031-01-01T00:00:00Z" [pending_post; cancelled_post]
  = [pending_post].
Proof. reflexivity. Qed.

(** C3 fails on the code.  [schedule_post] compares the instant of
    scheduled_time with the clock and then stores the text as given;
    [get_due] compares that text, byte by byte, with the [isoformat]
    text of the clock.  So at half a second past midnight UTC neither
    the post scheduled for 09:00 at +09:00 nor the one scheduled for
    midnight "Z" is returned, though the instant of both has come; at
    one second past midnight UTC the post scheduled for midnight at
    -05:00 is returned, five hours before its instant; and the posts of
    that day come out in an order that is not the order of their
    instants. *)
Theorem get_due_compares_text_not_time :
  instant_of "2026-01-01T00:00:00.500000+00:00" = Some 1767225600500000
  /\ instant_of (scheduled_time post_at_tokyo_nine) = Some 1767225600000000
  /\ instant_of (scheduled_time post_at_zulu_midnight)
     = Some 1767225600000000
  /\ get_due_at "2026-01-01T00:00:00.500000+00:00"
       [post_at_tokyo_nine; post_at_zulu_midnight] = []
  /\ instant_of "2026-01-01T00:00:01+00:00" = Some 1767225601000000
  /\ instant_of (scheduled_time post_at_new_york_midnight)
     = Some 1767243600000000
  /\ get_due_at "2026-01-01T00:00:01+00:00" [post_at_new_york_midnight]
     = [post_at_new_york_midnight]
  /\ instant_of "2026-01-01T12:00:00+00:00" = Some 1767268800000000
  /\ get_due_at "2026-01-01T12:00:00+00:00"
       [post_at_tokyo_nine; post_at_zulu_midnight; post_at_new_york_midnight]
     = [post_at_new_york_midnight; post_at_zulu_midnight; post_at_tokyo_nine].
Proof. repeat split. Qed.

(** ** C8, C10: cancel *)

Lemma cancel_pending (t : Table) (i : string) (r : Row) :
  get t i = Some r -> status r = "pending" ->
  cancel t i = (update_where_id i set_cancelled t, Some (set_cancelled r)).
Proof.
  intros Hg Hs. unfold cancel. rewrite Hg, Hs. simpl.
  rewrite get_update_same by auto with store. rewrite Hg. reflexivity.
Qed.

Lemma cancel_not_pending (t : Table) (i : string) (r : Row) :
  get t i = Some r -> status r <> "pending" -> cancel t i = (t, None).
Proof.
  intros Hg Hs. unfold cancel. rewrite Hg.
  apply String.eqb_neq in Hs. rewrite Hs. reflexivity.
Qed.

Lemma cancel_not_found (t : Table) (i : string) :
  get t i = None -> cancel t i = (t, None).
Proof. intros Hg. unfold cancel. rewrite Hg. reflexivity. Qed.

(** C8.  [cancel] returns a row exactly when the id exists and its
    row is pending; the row it returns is the stored one and is
    cancelled; on a row that is already cancelled it refuses and
    leaves the table alone, so a second [cancel] always refuses. *)
Theorem cancel_iff_pending (t : Table) (i : string) :
  ((exists r', snd (cancel t i) = Some r') <->
   (exists r, get t i = Some r /\ status r = "pending"))
  /\ (forall r', snd (cancel t i) = Some r' ->
                 status r' = "cancelled"
                 /\ get (fst (cancel t i)) i = Some r')
  /\ (forall r, get t i = Some r -> status r = "cancelled" ->
                cancel t i = (t, None))
  /\ snd (cancel (fst (cancel t i)) i) = None.
Proof.
  destruct (get t i) as [r |] eqn:Hg.
  - destruct (String.eqb_spec (status r) "pending") as [Hs | Hs].
    + rewrite (cancel_pending t i r Hg Hs). simpl.
      assert (Hg' : get (update_where_id i set_cancelled t) i
                    = Some (set_cancelled r))
        by (rewrite get_update_same by auto with store; rewrite Hg; reflexivity).
      repeat split.
      * intros _. exists r. auto.
      * intros _. eexists. reflexivity.
      * injection H as <-. reflexivity.
      * injection H as <-. exact Hg'.
      * intros r0 Hr0 Hc. injection Hr0 as <-. rewrite Hs in Hc. discriminate.
      * rewrite (cancel_not_pending _ i _ Hg'); [reflexivity |].
        simpl. discriminate.
    + rewrite (cancel_not_pending t i r Hg Hs). simpl.
      rewrite (cancel_not_pending t i r Hg Hs). simpl.
      repeat split; intros; break_hyps; try discriminate.
      exfalso. congruence.
  - rewrite (cancel_not_found t i Hg). simpl.
    rewrite (cancel_not_found t i Hg). simpl.
    repeat split; intros; break_hyps; discriminate.
Qed.

(** C10.  The two ways [cancel] refuses, an unknown id and a row that
    is not pending, both return [None], both leave the table as it was,
    and both make [cancel_scheduled_post] answer with the same message,
    which depends on the id only.  Whenever [cancel] returns [None] the
    table is unchanged. *)
Theorem cancel_refusal_writes_nothing (t1 t2 : Table) (i : string) (r : Row) :
  get t1 i = None ->
  get t2 i = Some r -> status r <> "pending" ->
  cancel t1 i = (t1, None)
  /\ cancel t2 i = (t2, None)
  /\ cancel_scheduled_post t1 i = (t1, refusal_response i)
  /\ cancel_scheduled_post t2 i = (t2, refusal_response i)
  /\ (forall t, snd (cancel t i) = None ->
                fst (cancel t i) = t
                /\ cancel_scheduled_post t i = (t, refusal_response i)).
Proof.
  intros H1 H2 Hs.
  pose proof (cancel_not_found t1 i H1) as E1.
  pose proof (cancel_not_pending t2 i r H2 Hs) as E2.
  unfold cancel_scheduled_post. rewrite E1, E2.
  repeat split.
  - destruct (get t i) as [x |] eqn:Hg.
    + destruct (String.eqb_spec (status x) "pending") as [Hp | Hp].
      * rewrite (cancel_pending t i x Hg Hp) in H. discriminate.
      * rewrite (cancel_not_pending t i x Hg Hp). reflexivity.
    + rewrite (cancel_not_found t i Hg). reflexivity.
  - destruct (cancel t i) as [t' [x |]] eqn:Ec; simpl in *; [discriminate |].
    destruct (get t i) as [x |] eqn:Hg.
    + destruct (String.eqb_spec (status x) "pending") as [Hp | Hp].
      * rewrite (cancel_pending t i x Hg Hp) in Ec. discriminate.
      * rewrite (cancel_not_pending t i x Hg Hp) in Ec.
        injection Ec as <-. reflexivity.
    + rewrite (cancel_not_found t i Hg) in Ec. injection Ec as <-. reflexivity.
Qed.

Lemma cancel_refusal_writes_nothing_witness :
  get [] "a" = None
  /\ get [cancelled_post] "a" = Some cancelled_post
  /\ status cancelled_post <> "pending"
  /\ cancel [] "a" = ([], None)
  /\ cancel [cancelled_post] "a" = ([cancelled_post], None)
  /\ cancel_scheduled_post [cancelled_post] "a"
     = ([cancelled_post], refusal_response "a").
Proof.
  pose proof (cancel_refusal_writes_nothing [] [cancelled_post] "a"
                cancelled_post eq_refl eq_refl ltac:(discriminate)) as W.
  split; [reflexivity |]. split; [reflexivity |]. split; [discriminate |].
  repeat split; apply W.
Defined.

(** ** C1: transitions from a state that is not pending *)

Lemma mark_published_found (t : Table) (now i urn : string) (r : Row) :
  get t i = Some r ->
  mark_published t now i urn
  = (update_where_id i (set_published now urn) t,
     Some (set_published now urn r)).
Proof.
  intros Hg. unfold mark_published.
  rewrite get_update_same by auto with store. rewrite Hg. reflexivity.
Qed.

Lemma mark_failed_found (t : Table) (i msg : string) (r : Row) :
  get t i = Some r ->
  mark_failed t i msg
  = (update_where_id i (set_failed msg) t, Some (set_failed msg r)).
Proof.
  intros Hg. unfold mark_failed.
  rewrite get_update_same by auto with store. rewrite Hg. reflexivity.
Qed.

(** C1, as the code has it.  On a row that is not pending, [cancel]
    refuses and leaves the table as it was.  [mark_published] and
    [mark_failed] carry no status guard: on any existing id they write,
    and the row they return and store is published, respectively
    failed, whatever its status was. *)
Theorem non_pending_transitions (t : Table) (i now urn msg : string) (r : Row) :
  get t i = Some r -> status r <> "pending" ->
  cancel t i = (t, None)
  /\ (exists r', snd (mark_published t now i urn) = Some r'
                 /\ get (fst (mark_published t now i urn)) i = Some r'
                 /\ status r' = "published")
  /\ (exists r', snd (mark_failed t i msg) = Some r'
                 /\ get (fst (mark_failed t i msg)) i = Some r'
                 /\ status r' = "failed").
Proof.
  intros Hg Hs. split; [exact (cancel_not_pending t i r Hg Hs) |].
  split.
  - exists (set_published now urn r).
    rewrite (mark_published_found t now i urn r Hg). simpl.
    rewrite get_update_same by auto with store. rewrite Hg. auto.
  - exists (set_failed msg r).
    rewrite (mark_failed_found t i msg r Hg). simpl.
    rewrite get_update_same by auto with store. rewrite Hg. auto.
Qed.

Lemma non_pending_transitions_witness :
  get [cancelled_post] "a" = Some cancelled_post
  /\ status cancelled_post <> "pending"
  /\ cancel [cancelled_post] "a" = ([cancelled_post], None)
  /\ exists r',
      snd (mark_published [cancelled_post] "2030-01-01T00:00:00+00:00" "a"
             "urn:li:share:1") = Some r'
      /\ status r' = "published".
Proof.
  pose proof (non_pending_transitions [cancelled_post] "a"
                "2030-01-01T00:00:00+00:00" "urn:li:share:1" "boom"
                cancelled_post eq_refl ltac:(discriminate)) as W.
  split; [reflexivity |]. split; [discriminate |].
  split; [apply W |].
  destruct W as [_ [[r' [Hr' [_ Hst]]] _]]. exists r'. auto.
Defined.

(** The claim as stated fails: [mark_published] on a cancelled row is
    not refused, it publishes the row; [mark_failed] on a published
    row turns it into a failed one. *)
Lemma mark_published_overrides_cancelled :
  status cancelled_post = "cancelled"
  /\ mark_published [cancelled_post] "2030-01-01T00:00:00+00:00" "a"
       "urn:li:share:1"
     = ([set_published "2030-01-01T00:00:00+00:00" "urn:li:share:1"
           cancelled_post],
        Some (set_published "2030-01-01T00:00:00+00:00" "urn:li:share:1"
                cancelled_post))
  /\ status (set_published "2030-01-01T00:00:00+00:00" "urn:li:share:1"
               cancelled_post) = "published"
  /\ status published_post = "published"
  /\ mark_failed [published_post] "b" "boom"
     = ([set_failed "boom" published_post],
        Some (set_failed "boom" published_post))
  /\ status (set_failed "boom" published_post) = "failed".
Proof. repeat split. Qed.

(** ** Invariants of operation sequences *)

Lemma ids_update (f : Row -> Row) (t : Table) (i : string) :
  keeps_id f -> map id (update_where_id i f t) = map id t.
Proof.
  intros Hf. unfold update_where_id. rewrite map_map.
  apply map_ext. intros r. destruct (id r =? i)%string; auto.
Qed.

Lemma get_app_fresh (t : Table) (r : Row) (j : string) :
  get (t ++ [r])%list j
  = match get t j with
    | Some x => Some x
    | None => if (id r =? j)%string then Some r else None
    end.
Proof.
  unfold get. induction t as [| x rest IH]; simpl.
  - destruct (id r =? j)%string; reflexivity.
  - destruct (id x =? j)%string; [reflexivity | exact IH].
Qed.

Lemma Forall_update (P : Row -> Prop) (f : Row -> Row) (t : Table) (i : string) :
  Forall P t ->
  (forall r, In r t -> id r = i -> P (f r)) ->
  Forall P (update_where_id i f t).
Proof.
  intros Ht Hf. rewrite Forall_forall in *. intros x Hx.
  apply In_update in Hx. destruct Hx as [r [Hr ->]].
  destruct (String.eqb_spec (id r) i); auto.
Qed.

Lemma cancel_table (t : Table) (i : string) :
  fst (cancel t i) = t
  \/ (exists r, get t i = Some r /\ status r = "pending"
                /\ fst (cancel t i) = update_where_id i set_cancelled t).
Proof.
  destruct (get t i) as [r |] eqn:Hg.
  - destruct (String.eqb_spec (status r) "pending") as [Hs | Hs].
    + right. exists r. rewrite (cancel_pending t i r Hg Hs). auto.
    + left. rewrite (cancel_not_pending t i r Hg Hs). reflexivity.
  - left. rewrite (cancel_not_found t i Hg). reflexivity.
Qed.

Lemma never_pending_update (f : Row -> Row) (t : Table) (i j : string) :
  keeps_id f -> (forall r, status (f r) <> "pending") ->
  never_pending i t -> never_pending i (update_where_id j f t).
Proof.
  intros Hf Hst [Hex Hall]. split.
  - destruct (String.eqb_spec i j) as [-> | Hne].
    + rewrite get_update_same by assumption.
      destruct (get t j); [discriminate | contradiction].
    + rewrite get_update_other by assumption. exact Hex.
  - intros x Hx Hid. apply In_update in Hx. destruct Hx as [r [Hr ->]].
    destruct (id r =? j)%string.
    + apply Hst.
    + apply Hall; assumption.
Qed.

Lemma never_pending_step (i : string) (t : Table) (o : Op) :
  never_pending i t -> never_pending i (apply_op t o).
Proof.
  intros Hnp. destruct o as [j c k s u v | now j urn | j msg | j]; simpl.
  - unfold add. destruct (get t j) as [x |] eqn:Hg; [exact Hnp |]. simpl.
    destruct Hnp as [Hex Hall].
    assert (Hji : j <> i) by (intros ->; contradiction).
    split.
    + rewrite get_app_fresh. destruct (get t i); [discriminate | contradiction].
    + intros x Hx Hid. apply in_app_or in Hx. destruct Hx as [Hx | [<- | []]].
      * apply Hall; assumption.
      * simpl in Hid. contradiction.
  - apply never_pending_update; auto with store. intros r. discriminate.
  - apply never_pending_update; auto with store. intros r. discriminate.
  - destruct (cancel_table t j) as [-> | [r [_ [_ ->]]]]; [exact Hnp |].
    apply never_pending_update; auto with store. intros r0. discriminate.
Qed.

Lemma never_pending_run (i : string) (ops : list Op) (t : Table) :
  never_pending i t -> never_pending i (run_ops ops t).
Proof.
  revert t. induction ops as [| o rest IH]; intros t Hnp; simpl.
  - exact Hnp.
  - apply IH, never_pending_step, Hnp.
Qed.

(** ** C6: mark_failed *)

(** C6.  For an id present in the table, [mark_failed] returns and
    stores a row whose retry_count is one more than before, whose
    error_message is the message given and whose scheduled_time is
    unchanged; its status is failed.  After that, whatever further
    store operations are run, no row with that id is returned by
    [get_due_at] for any [now]: no operation of the store puts a row
    back to pending. *)
Theorem mark_failed_effect (t : Table) (i msg : string) (r : Row) :
  get t i = Some r ->
  exists r',
    snd (mark_failed t i msg) = Some r'
    /\ get (fst (mark_failed t i msg)) i = Some r'
    /\ retry_count r' = retry_count r + 1
    /\ error_message r' = Some msg
    /\ scheduled_time r' = scheduled_time r
    /\ status r' = "failed"
    /\ forall (ops : list Op) (now : string) (x : Row),
         In x (get_due_at now (run_ops ops (fst (mark_failed t i msg)))) ->
         id x <> i.
Proof.
  intros Hg. exists (set_failed msg r).
  rewrite (mark_failed_found t i msg r Hg). simpl.
  assert (Hg' : get (update_where_id i (set_failed msg) t) i
                = Some (set_failed msg r))
    by (rewrite get_update_same by auto with store; rewrite Hg; reflexivity).
  repeat split; try assumption.
  intros ops now x Hx Hid.
  apply get_due_at_In in Hx.
  destruct Hx as [Hin [Hst _]].
  assert (Hnp : never_pending i (update_where_id i (set_failed msg) t)).
  { split.
    - rewrite Hg'. discriminate.
    - intros y Hy Hyi. apply In_update in Hy. destruct Hy as [z [Hz ->]].
      destruct (String.eqb_spec (id z) i) as [_ | Hne].
      + discriminate.
      + contradiction. }
  apply (never_pending_run i ops) in Hnp.
  destruct Hnp as [_ Hall]. exact (Hall x Hin Hid Hst).
Qed.

Lemma mark_failed_effect_witness :
  get [pending_post] "a"
  = Some pending_post
  /\ exists r',
      snd (mark_failed [pending_post]
             "a" "rate limited") = Some r'
      /\ retry_count r' = 0 + 1
      /\ error_message r' = Some "rate limited".
Proof.
  split; [reflexivity |].
  destruct (mark_failed_effect
              [pending_post]
              "a" "rate limited"
              pending_post eq_refl)
    as [r' [H1 [_ [H3 [H4 _]]]]].
  exists r'. auto.
Defined.

(** ** C2: published_at and post_urn *)

Lemma published_has_fields_step (t : Table) (o : Op) :
  Forall published_has_fields t -> Forall published_has_fields (apply_op t o).
Proof.
  intros Ht. destruct o as [j c k s u v | now j urn | j msg | j]; simpl.
  - unfold add. destruct (get t j); [exact Ht |]. simpl.
    apply Forall_app. split; [exact Ht |].
    constructor; [| constructor]. intros H. discriminate.
  - apply Forall_update; [exact Ht |]. intros r _ _ _. simpl.
    split; discriminate.
  - apply Forall_update; [exact Ht |]. intros r _ _ H. discriminate.
  - destruct (cancel_table t j) as [-> | [r [_ [_ ->]]]]; [exact Ht |].
    apply Forall_update; [exact Ht |]. intros r0 _ _ H. discriminate.
Qed.

Lemma published_has_fields_run (ops : list Op) (t : Table) :
  Forall published_has_fields t ->
  Forall published_has_fields (run_ops ops t).
Proof.
  revert t. induction ops as [| o rest IH]; intros t Ht; simpl.
  - exact Ht.
  - apply IH, published_has_fields_step, Ht.
Qed.

Lemma unique_ids_get (t : Table) (x : Row) :
  unique_ids t -> In x t -> get t (id x) = Some x.
Proof.
  unfold unique_ids, get. induction t as [| y rest IH]; simpl; [tauto |].
  intros Hnd [-> | Hin].
  - rewrite String.eqb_refl. reflexivity.
  - inversion Hnd as [| ? ? Hnotin Hnd']; subst.
    destruct (String.eqb_spec (id y) (id x)) as [Heq | _].
    + exfalso. apply Hnotin. rewrite Heq. apply in_map, Hin.
    + apply IH; assumption.
Qed.

Lemma unique_ids_step (t : Table) (o : Op) :
  unique_ids t -> unique_ids (apply_op t o).
Proof.
  unfold unique_ids.
  intros Ht. destruct o as [j c k s u v | now j urn | j msg | j]; simpl.
  - unfold add. destruct (get t j) eqn:Hg; [exact Ht |]. simpl.
    rewrite map_app. simpl.
    apply NoDup_app; [exact Ht | constructor; [simpl; tauto | constructor] |].
    intros a Ha [<- | []]. apply in_map_iff in Ha.
    destruct Ha as [x [Hx Hin]]. rewrite get_None in Hg.
    exact (Hg x Hin Hx).
  - rewrite ids_update by auto with store. exact Ht.
  - rewrite ids_update by auto with store. exact Ht.
  - destruct (cancel_table t j) as [-> | [r [_ [_ ->]]]]; [exact Ht |].
    rewrite ids_update by auto with store. exact Ht.
Qed.

Lemma fields_iff_published_step (t : Table) (o : Op) :
  unique_ids t -> Forall fields_iff_published t ->
  spares_published t [o] = true ->
  Forall fields_iff_published (apply_op t o).
Proof.
  intros Hu Ht Hd. simpl in Hd. rewrite andb_true_r in Hd.
  destruct o as [j c k s u v | now j urn | j msg | j]; simpl.
  - unfold add. destruct (get t j); [exact Ht |]. simpl.
    apply Forall_app. split; [exact Ht |].
    constructor; [| constructor].
    split; simpl; split; intros H; try discriminate; contradiction.
  - apply Forall_update; [exact Ht |]. intros r _ _.
    split; simpl; split; intros _; try reflexivity; discriminate.
  - apply Forall_update; [exact Ht |]. intros r Hr Hid.
    rewrite Forall_forall in Ht. specialize (Ht r Hr).
    unfold is_published in Hd. rewrite <- Hid in Hd.
    rewrite (unique_ids_get t r Hu Hr) in Hd.
    apply negb_true_iff, String.eqb_neq in Hd.
    destruct Ht as [[Ha _] [Hb _]].
    split; simpl; split; intros H; try discriminate.
    + apply Ha in H. contradiction.
    + apply Hb in H. contradiction.
  - destruct (cancel_table t j) as [-> | [r [Hg [Hs ->]]]]; [exact Ht |].
    apply Forall_update; [exact Ht |]. intros x Hx Hid.
    rewrite Forall_forall in Ht. specialize (Ht x Hx).
    rewrite <- Hid in Hg. rewrite (unique_ids_get t x Hu Hx) in Hg.
    injection Hg as ->.
    destruct Ht as [[Ha _] [Hb _]].
    split; simpl; split; intros H; try discriminate.
    + apply Ha in H. congruence.
    + apply Hb in H. congruence.
Qed.

Lemma fields_iff_published_run (ops : list Op) (t : Table) :
  unique_ids t -> Forall fields_iff_published t ->
  spares_published t ops = true ->
  Forall fields_iff_published (run_ops ops t).
Proof.
  revert t. induction ops as [| o rest IH]; intros t Hu Ht Hd; simpl.
  - exact Ht.
  - simpl in Hd. apply andb_true_iff in Hd. destruct Hd as [Hg Hrest].
    apply IH; [apply unique_ids_step, Hu | | exact Hrest].
    apply fields_iff_published_step; [exact Hu | exact Ht |].
    simpl. rewrite Hg. reflexivity.
Qed.

(** C2, as the code has it.  Starting from the empty table, after any
    sequence of store operations every published row has published_at
    and post_urn set.  When no [mark_failed] of the sequence names a
    row that is published at that moment, the converse holds too:
    published_at and post_urn are set on exactly the published rows. *)
Theorem published_fields_invariant (ops : list Op) (r : Row) :
  In r (run_ops ops []) ->
  (status r = "published" ->
   published_at r <> None /\ post_urn r <> None)
  /\ (spares_published [] ops = true ->
      (published_at r <> None <-> status r = "published")
      /\ (post_urn r <> None <-> status r = "published")).
Proof.
  intros Hin. split.
  - pose proof (published_has_fields_run ops [] (Forall_nil _)) as H.
    rewrite Forall_forall in H. exact (H r Hin).
  - intros Hd.
    pose proof (fields_iff_published_run ops [] (NoDup_nil _)
                  (Forall_nil _) Hd) as H.
    rewrite Forall_forall in H. exact (H r Hin).
Qed.

Lemma published_fields_invariant_witness :
  In published_after_failures (run_ops fail_twice_then_publish [])
  /\ spares_published [] fail_twice_then_publish = true
  /\ (published_at published_after_failures <> None
      <-> status published_after_failures = "published")
  /\ (post_urn published_after_failures <> None
      <-> status published_after_failures = "published").
Proof.
  assert (Hin : In published_after_failures
                   (run_ops fail_twice_then_publish []))
    by (left; reflexivity).
  split; [exact Hin |]. split; [reflexivity |].
  apply (published_fields_invariant fail_twice_then_publish _ Hin).
  reflexivity.
Defined.

(** The claim as stated fails: after add, mark_published, mark_failed
    on one id, the row is failed and still carries published_at and
    post_urn. *)
Lemma failed_row_keeps_publication :
  run_ops publish_then_fail []
  = [mkRow "a" "hello" None "PUBLIC" "2030-01-01T00:00:00Z" "failed"
       "2026-01-01T00:00:00+00:00" (Some "2030-01-01T00:00:01+00:00")
       (Some "urn:li:share:1") (Some "boom") 1].
Proof. reflexivity. Qed.

(** ** C9: list and its limit *)

Lemma sql_limit_length {A : Type} (n : Z) (rows : list A) :
  0 <= n -> (Z.of_nat (List.length (sql_limit n rows)) <= n)%Z.
Proof.
  intros Hn. unfold sql_limit.
  destruct (Z.ltb_spec n 0) as [Hlt | _]; [lia |].
  rewrite length_firstn. lia.
Qed.

(** With a limit that is not negative, [list] returns at most that
    many rows, and none at all for a limit of zero. *)
Lemma list_at_most_limit (t : Table) (status_ : option string) (limit : Z)
  (rows : list Row) :
  0 <= limit -> list_ t status_ limit = Ok rows ->
  Z.of_nat (List.length rows) <= limit.
Proof.
  intros Hn. unfold list_.
  destruct (fits_int64 limit); [| discriminate].
  destruct status_ as [s |]; [destruct (s =? "")%string |];
    intros H; injection H as <-; apply sql_limit_length, Hn.
Qed.

Example list_limit_one : list_ two_due None 1 = Ok [pending_2025_12_30].
Proof. reflexivity. Qed.

Example list_limit_minus_one : list_ two_due None (-1) = Ok two_due.
Proof. reflexivity. Qed.

(** C9 fails on the code for a negative limit: [LIMIT -1] puts no
    bound on the result, and [list] hands the limit to the query as it
    is.  Whatever the table, [list(None, -1)] returns every row of
    it. *)
Theorem list_negative_limit_returns_every_row (t : Table) :
  exists rows,
    list_ t None (-1) = Ok rows
    /\ Permutation rows t
    /\ List.length rows = List.length t.
Proof.
  exists (order_by_scheduled_time t). split; [reflexivity |].
  split; [apply order_by_scheduled_time_perm
         | apply order_by_scheduled_time_length].
Qed.

(** ** The dispatch loop *)

Lemma calls_app (a b : list Event) :
  calls (a ++ b) = (calls a ++ calls b)%list.
Proof.
  induction a as [| [c x | l] rest IH]; simpl; [reflexivity | | exact IH].
  rewrite IH. reflexivity.
Qed.

Lemma answers_app (a b : list Event) :
  answers (a ++ b) = (answers a ++ answers b)%list.
Proof.
  induction a as [| [c x | l] rest IH]; simpl; [reflexivity | | exact IH].
  rewrite IH. reflexivity.
Qed.

Lemma NoDup_map_filter {A B : Type} (f : A -> B) (g : A -> bool) (l : list A) :
  NoDup (map f l) -> NoDup (map f (filter g l)).
Proof.
  induction l as [| x rest IH]; simpl; intros H; [constructor |].
  inversion H as [| ? ? Hnotin Hrest]; subst.
  destruct (g x); simpl; [constructor |]; auto.
  intros Hin. apply Hnotin. apply in_map_iff in Hin.
  destruct Hin as [y [Hy Hin]]. apply filter_In in Hin.
  apply in_map_iff. exists y. tauto.
Qed.

Section Dispatch.

Context {env : Environment}.

(** One turn of the loop: one request, then one UPDATE on the id of
    the post, chosen by the answer. *)
Lemma dispatch_one_step (w : World) (t : Table) (out : list Event) (p : Row) :
  exists w' a f line,
    dispatch_one (w, t, out) p
    = (w', update_where_id (id p) f t,
       (out ++ [Called (request p) a; Printed line])%list)
    /\ keeps_id f
    /\ match a with
       | Raise e => f = set_failed (str e)
       | Ok urn => exists now, f = set_published now urn
       end.
Proof.
  unfold dispatch_one, request.
  destruct (client_call w (create_post (commentary p) (visibility p)))
    as [w1 [urn | e]].
  - unfold db_mark_published. destruct (utcnow w1) as [w2 n]. simpl.
    exists w2, (Ok urn), (set_published (isoformat n) urn). eexists.
    split; [reflexivity |]. split; [auto with store | eauto].
  - simpl. exists w1, (Raise e), (set_failed (str e)). eexists.
    split; [reflexivity |]. split; [auto with store | reflexivity].
Qed.

Lemma dispatch_loop (due : list Row) :
  forall (w : World) (t : Table) (out : list Event),
    NoDup (map id due) ->
    (forall p, In p due -> get t (id p) = Some p) ->
    exists w' t' out' ans,
      fold_left dispatch_one due (w, t, out) = (w', t', out')
      /\ calls out' = (calls out ++ map request due)%list
      /\ answers out' = (answers out ++ ans)%list
      /\ Forall2 (fun p a => exists r, get t' (id p) = Some r
                                       /\ outcome_row a p r) due ans
      /\ (forall j, ~ In j (map id due) -> get t' j = get t j).
Proof.
  induction due as [| p rest IH]; intros w t out Hnd Hget; cbn [fold_left].
  - exists w, t, out, []. simpl. rewrite !app_nil_r. repeat split; auto.
  - destruct (dispatch_one_step w t out p) as [w1 [a [f [line [E [Hf Ha]]]]]].
    rewrite E. simpl in Hnd. inversion Hnd as [| ? ? Hnotin Hnd']; subst.
    assert (Hrest : forall q, In q rest ->
                              get (update_where_id (id p) f t) (id q) = Some q).
    { intros q Hq. rewrite get_update_other; [apply Hget; simpl; auto | exact Hf |].
      intros Heq. apply Hnotin. rewrite <- Heq. apply in_map, Hq. }
    destruct (IH w1 (update_where_id (id p) f t)
                (out ++ [Called (request p) a; Printed line])%list Hnd' Hrest)
      as [w' [t' [out' [ans [E' [Hc [Han [Hall Hother]]]]]]]].
    exists w', t', out', (a :: ans).
    split; [exact E' |].
    split; [rewrite Hc, calls_app, <- app_assoc; reflexivity |].
    split; [rewrite Han, answers_app, <- app_assoc; reflexivity |].
    split.
    + constructor; [| exact Hall].
      exists (f p). split.
      * rewrite (Hother (id p) Hnotin), get_update_same by exact Hf.
        rewrite (Hget p) by (simpl; auto). reflexivity.
      * destruct a as [urn | e]; simpl.
        -- destruct Ha as [now ->]. exists now. reflexivity.
        -- rewrite Ha. reflexivity.
    + intros j Hj. simpl in Hj.
      rewrite Hother by tauto.
      apply get_update_other; [exact Hf | intros ->; tauto].
Qed.

(** The rows [get_due] hands to the loop have pairwise different ids,
    and each of them is the row the table holds under its id. *)
Lemma due_rows_are_stored (now : string) (t : Table) :
  unique_ids t ->
  NoDup (map id (get_due_at now t))
  /\ (forall p, In p (get_due_at now t) -> get t (id p) = Some p).
Proof.
  intros Hu. split.
  - unfold get_due_at.
    eapply Permutation_NoDup;
      [apply Permutation_map, Permutation_sym, order_by_scheduled_time_perm |].
    apply NoDup_map_filter, Hu.
  - intros p Hp. apply get_due_at_In in Hp.
    apply unique_ids_get; tauto.
Qed.

Lemma run_scheduler_loop (w : World) (t : Table) :
  unique_ids t ->
  exists w' t' out,
    run_scheduler w t = (w', t', out)
    /\ calls out = map request (snd (get_due w t))
    /\ Forall2 (fun p a => exists r, get t' (id p) = Some r
                                     /\ outcome_row a p r)
         (snd (get_due w t)) (answers out).
Proof.
  intros Hu. unfold run_scheduler, get_due.
  destruct (utcnow w) as [w0 n]. simpl.
  destruct (due_rows_are_stored (isoformat n) t Hu) as [Hnd Hget].
  destruct (get_due_at (isoformat n) t) as [| p rest] eqn:Hdue.
  - exists w0, t, [Printed "No posts due for publishing."].
    simpl. repeat split. constructor.
  - destruct (dispatch_loop (p :: rest) w0 t [] Hnd Hget)
      as [w' [t' [out' [ans [E [Hc [Han [Hall _]]]]]]]].
    exists w', t', out'. simpl in Han. subst ans. auto.
Qed.

End Dispatch.

(** ** C7: a failed request does not stop the run *)

Lemma Forall2_In_left {A B : Type} (R : A -> B -> Prop)
  (l1 : list A) (l2 : list B) (x : A) :
  Forall2 R l1 l2 -> In x l1 -> exists y, In y l2 /\ R x y.
Proof.
  induction 1 as [| a b l1' l2' Hab _ IH]; simpl; [tauto |].
  intros [<- | Hin].
  - exists b. auto.
  - destruct (IH Hin) as [y [Hy Hr]]. exists y. auto.
Qed.

Lemma Forall2_head {A B : Type} (R : A -> B -> Prop)
  (x : A) (y : B) (l1 : list A) (l2 : list B) :
  Forall2 R (x :: l1) (y :: l2) -> R x y.
Proof. intros H. inversion H. assumption. Qed.

Lemma answers_turns (due : list Row) (ans : list (result string)) :
  List.length ans = List.length due ->
  answers (flat_map turn (combine due ans)) = ans.
Proof.
  revert ans. induction due as [| p rest IH]; intros [| a ans] H;
    simpl in *; try discriminate; [reflexivity |].
  rewrite IH by lia. reflexivity.
Qed.

Section DispatchAnswers.

Context {env : Environment}.

Lemma sdk_answers_length (due : list Row) :
  forall w : World, List.length (sdk_answers w due) = List.length due.
Proof.
  induction due as [| p rest IH]; intros w; simpl; [reflexivity |].
  destruct (client_call w (request p)) as [w1 a]. simpl.
  rewrite IH. reflexivity.
Qed.

(** One turn of the loop, with the answer taken from [client_call]. *)
Lemma dispatch_one_answer (w : World) (t : Table) (out : list Event)
  (p : Row) (w1 : World) (a : result string) :
  client_call w (request p) = (w1, a) ->
  exists t',
    dispatch_one (w, t, out) p
    = (match a with
       | Ok _ => fst (utcnow w1)
       | Raise _ => w1
       end, t', (out ++ turn (p, a))%list).
Proof.
  unfold request. intros E. unfold dispatch_one, turn, request. simpl.
  rewrite E. destruct a as [urn | e].
  - unfold db_mark_published. destruct (utcnow w1) as [w2 n]. simpl.
    eexists. reflexivity.
  - simpl. eexists. reflexivity.
Qed.

Lemma dispatch_loop_answers (due : list Row) :
  forall (w : World) (t : Table) (out : list Event),
  exists w' t',
    fold_left dispatch_one due (w, t, out)
    = (w', t', (out ++ flat_map turn (combine due (sdk_answers w due)))%list).
Proof.
  induction due as [| p rest IH]; intros w t out; cbn [fold_left].
  - exists w, t. simpl. rewrite app_nil_r. reflexivity.
  - cbn [sdk_answers].
    destruct (client_call w (request p)) as [w1 a] eqn:Ec.
    destruct (dispatch_one_answer w t out p w1 a Ec) as [t1 E].
    rewrite E.
    destruct (IH (match a with
                  | Ok _ => fst (utcnow w1)
                  | Raise _ => w1
                  end) t1 (out ++ turn (p, a))%list) as [w' [t' E']].
    exists w', t'. rewrite E'. cbn [combine flat_map].
    rewrite <- app_assoc. reflexivity.
Qed.

(** The events of a run are fixed by the due posts and by what the
    SDK answers. *)
Lemma run_scheduler_events (w : World) (t : Table) :
  exists w' t' out,
    run_scheduler w t = (w', t', out)
    /\ out = match snd (get_due w t) with
             | [] => [Printed "No posts due for publishing."]
             | _ :: _ =>
                 flat_map turn
                   (combine (snd (get_due w t))
                      (sdk_answers (fst (get_due w t)) (snd (get_due w t))))
             end
    /\ answers out = sdk_answers (fst (get_due w t)) (snd (get_due w t)).
Proof.
  unfold run_scheduler, get_due. destruct (utcnow w) as [w0 n]. simpl.
  destruct (get_due_at (isoformat n) t) as [| p rest].
  - eexists _, _, _. split; [reflexivity |]. split; reflexivity.
  - destruct (dispatch_loop_answers (p :: rest) w0 t []) as [w' [t' E]].
    rewrite E. eexists _, _, _. split; [reflexivity |].
    cbn [app]. split; [reflexivity |].
    apply answers_turns, sdk_answers_length.
Qed.

(** The loop lemma, with the answers of the SDK in place of the
    answers logged. *)
Lemma run_scheduler_outcomes (w : World) (t : Table) :
  unique_ids t ->
  exists w' t' out,
    run_scheduler w t = (w', t', out)
    /\ calls out = map request (snd (get_due w t))
    /\ answers out = sdk_answers (fst (get_due w t)) (snd (get_due w t))
    /\ Forall2 (fun p a => exists r, get t' (id p) = Some r
                                     /\ outcome_row a p r)
         (snd (get_due w t))
         (sdk_answers (fst (get_due w t)) (snd (get_due w t))).
Proof.
  intros Hu.
  destruct (run_scheduler_loop w t Hu) as [w' [t' [out [E [Hc Hall]]]]].
  destruct (run_scheduler_events w t) as [w2 [t2 [out2 [E2 [_ Ha]]]]].
  rewrite E in E2. injection E2 as <- <- <-.
  exists w', t', out. rewrite <- Ha. auto.
Qed.

End DispatchAnswers.

(** C7.  In a run over a table with a primary key, one request is
    made per due post, in the order of [get_due], whatever the SDK
    answers; every post for whose request [client_call] raised [e]
    ends the run stored as failed, with [str(e)] as its error_message
    and one more retry; and no due post is left pending.  The answers
    are those of [client_call], which the run logs as they are. *)
Theorem run_scheduler_failure_is_local {env : Environment}
  (w : World) (t : Table) :
  unique_ids t ->
  exists w' t' out,
    run_scheduler w t = (w', t', out)
    /\ calls out = map request (snd (get_due w t))
    /\ answers out = sdk_answers (fst (get_due w t)) (snd (get_due w t))
    /\ Forall2 (fun p a => forall e, a = Raise e ->
                           exists r, get t' (id p) = Some r
                                     /\ recorded_failure p e r)
         (snd (get_due w t))
         (sdk_answers (fst (get_due w t)) (snd (get_due w t)))
    /\ (forall p, In p (snd (get_due w t)) ->
                  exists r, get t' (id p) = Some r
                            /\ (status r = "published"
                                \/ status r = "failed")).
Proof.
  intros Hu.
  destruct (run_scheduler_outcomes w t Hu)
    as [w' [t' [out [E [Hc [Ha Hall]]]]]].
  exists w', t', out. split; [exact E |]. split; [exact Hc |].
  split; [exact Ha |]. split.
  - eapply Forall2_impl; [| exact Hall].
    intros p a [r [Hg Ho]] e ->. simpl in Ho. subst r.
    exists (set_failed (str e) p). split; [exact Hg |].
    repeat split.
  - intros p Hp.
    destruct (Forall2_In_left _ _ _ p Hall Hp) as [a [_ [r [Hg Ho]]]].
    exists r. split; [exact Hg |].
    destruct a as [urn | e]; simpl in Ho.
    + destruct Ho as [now ->]. left. reflexivity.
    + subst r. right. reflexivity.
Qed.

Lemma two_due_unique : unique_ids two_due.
Proof.
  unfold unique_ids. simpl.
  repeat constructor; simpl; intuition discriminate.
Defined.

Lemma run_scheduler_failure_is_local_witness :
  unique_ids two_due
  /\ sdk_answers (env := Scripted.environment)
       (fst (get_due (env := Scripted.environment)
               (one_run [Raise (SdkError "rate limited");
                         Ok "urn:li:share:2"]) two_due))
       two_due
     = [Raise (SdkError "rate limited"); Ok "urn:li:share:2"]
  /\ exists w' t' out r,
      run_scheduler (env := Scripted.environment)
        (one_run [Raise (SdkError "rate limited"); Ok "urn:li:share:2"])
        two_due = (w', t', out)
      /\ get t' "a" = Some r
      /\ status r = "failed"
      /\ error_message r = Some "rate limited"
      /\ retry_count r = 0 + 1.
Proof.
  split; [exact two_due_unique |]. split; [reflexivity |].
  destruct (run_scheduler_failure_is_local (env := Scripted.environment)
              (one_run [Raise (SdkError "rate limited"); Ok "urn:li:share:2"])
              two_due two_due_unique)
    as [w' [t' [out [E [_ [_ [Hall _]]]]]]].
  change (snd (get_due (env := Scripted.environment)
                 (one_run [Raise (SdkError "rate limited");
                           Ok "urn:li:share:2"]) two_due))
    with [pending_2025_12_30; pending_2025_12_31] in Hall.
  change (sdk_answers (env := Scripted.environment)
            (fst (get_due (env := Scripted.environment)
                    (one_run [Raise (SdkError "rate limited");
                              Ok "urn:li:share:2"]) two_due))
            [pending_2025_12_30; pending_2025_12_31])
    with [Raise (SdkError "rate limited"); Ok "urn:li:share:2"] in Hall.
  apply Forall2_head in Hall.
  destruct (Hall (SdkError "rate limited") eq_refl) as [r [Hg [Hs [He Hr]]]].
  exists w', t', out, r. repeat split; assumption.
Defined.

(** The same run, evaluated: the first request fails, the second post
    is still published. *)
Example run_scheduler_goes_on :
  run_scheduler (env := Scripted.environment)
    (one_run [Raise (SdkError "rate limited"); Ok "urn:li:share:2"]) two_due
  = (Scripted.mkScript [] [] [],
     [set_failed "rate limited" pending_2025_12_30;
      set_published "2026-01-01T00:00:01+00:00" "urn:li:share:2"
        pending_2025_12_31],
     [Called (create_post "hello" "PUBLIC") (Raise (SdkError "rate limited"));
      Printed "Failed: a -> rate limited";
      Called (create_post "hello" "PUBLIC") (Ok "urn:li:share:2");
      Printed "Published: b -> urn:li:share:2"]).
Proof. reflexivity. Qed.

(** ** C5: what the loop sends to the SDK *)

(** The request for a due post carries its commentary and its
    visibility, and nothing else. *)
Lemma request_fields (p : Row) :
  call_commentary (request p) = commentary p
  /\ call_visibility (request p) = visibility p
  /\ call_url (request p) = None.
Proof. repeat split. Qed.

(** Every request of a run is the text-only [create_post]: none
    carries a URL. *)
Lemma run_scheduler_sends_no_url {env : Environment} (w : World) (t : Table)
  (c : SdkCall) :
  unique_ids t ->
  In c (calls (snd (run_scheduler w t))) ->
  call_url c = None.
Proof.
  intros Hu Hc.
  destruct (run_scheduler_loop w t Hu) as [w' [t' [out [E [Hcalls _]]]]].
  rewrite E in Hc. simpl in Hc. rewrite Hcalls in Hc.
  apply in_map_iff in Hc. destruct Hc as [p [<- _]]. reflexivity.
Qed.

(** C5 fails on the code.  A due post with a link attached is sent
    with its commentary and its visibility, through [create_post]; the
    URL stored on the row is not part of the request, and the post is
    then marked published. *)
Theorem run_scheduler_drops_url :
  url post_with_link = Some "https://example.com/article"
  /\ run_scheduler (env := Scripted.environment)
       (one_run [Ok "urn:li:share:1"]) [post_with_link]
     = (Scripted.mkScript [] [] [],
        [set_published "2026-01-01T00:00:01+00:00" "urn:li:share:1"
           post_with_link],
        [Called (create_post "hello" "PUBLIC") (Ok "urn:li:share:1");
         Printed "Published: a -> urn:li:share:1"])
  /\ map call_url
       (calls (snd (run_scheduler (env := Scripted.environment)
                      (one_run [Ok "urn:li:share:1"]) [post_with_link])))
     = [None].
Proof. repeat split. Qed.

(** ** C4: validation in schedule_post *)

(** C4, as the code has it.  When scheduled_time does not parse, has
    no UTC offset, or is not strictly after the current time,
    [schedule_post] answers with the structured error and the table is
    left as it was.  (The commentary is not looked at.) *)
Theorem schedule_post_rejects_bad_time {env : Environment}
  (w : World) (t : Table) (commentary_ scheduled_time_ : string)
  (url_ : option string) (visibility_ : string) :
  (exists e, fromisoformat (replace_Z scheduled_time_) = Raise e)
  \/ (exists n, fromisoformat (replace_Z scheduled_time_) = Ok (Naive n))
  \/ (exists a, fromisoformat (replace_Z scheduled_time_) = Ok (Aware a)
                /\ a <= snd (utcnow w)) ->
  exists w' response,
    schedule_post w t commentary_ scheduled_time_ url_ visibility_
    = (w', t, response)
    /\ is_error_response response = true.
Proof.
  unfold schedule_post.
  intros [[e ->] | [[n ->] | [a [-> Hle]]]].
  - eexists _, _. split; reflexivity.
  - destruct (utcnow w) as [w1 now]. eexists _, _. split; reflexivity.
  - destruct (utcnow w) as [w1 now]. simpl in Hle.
    apply Z.leb_le in Hle. rewrite Hle.
    eexists _, _. split; reflexivity.
Qed.

Lemma schedule_post_rejects_bad_time_witness :
  (exists a, Scripted.parse_table (replace_Z "2020-01-01T00:00:00Z")
             = Ok (Aware a)
             /\ a <= snd (Scripted.read_clock one_request))
  /\ exists w' response,
      schedule_post (env := Scripted.environment) one_request []
        "hello" "2020-01-01T00:00:00Z" None "PUBLIC"
      = (w', [], response)
      /\ is_error_response response = true.
Proof.
  assert (H : exists a, Scripted.parse_table (replace_Z "2020-01-01T00:00:00Z")
                        = Ok (Aware a)
                        /\ a <= snd (Scripted.read_clock one_request)).
  { exists 1577836800000000. split; [reflexivity |]. simpl. lia. }
  split; [exact H |].
  apply (schedule_post_rejects_bad_time (env := Scripted.environment)
           one_request [] "hello" "2020-01-01T00:00:00Z" None "PUBLIC").
  right. right. exact H.
Defined.

(** The claim as stated fails: an empty commentary with a time in the
    future is accepted, and a pending row with that empty commentary is
    written. *)
Lemma schedule_post_accepts_empty_commentary :
  schedule_post (env := Scripted.environment) one_request []
    "" "2099-12-31T23:59:59Z" None "PUBLIC"
  = (Scripted.mkScript [] [] [],
     [mkRow "0b0e7a3c-5d1f-4c57-9c49-2f6f3d8f6a11" "" None "PUBLIC"
        "2099-12-31T23:59:59Z" "pending" "2026-01-01T00:00:01+00:00"
        None None None 0],
     JObj [("postId", JStr "0b0e7a3c-5d1f-4c57-9c49-2f6f3d8f6a11");
           ("scheduledTime", JStr "2099-12-31T23:59:59Z");
           ("status", JStr "pending");
           ("message", JStr "Post scheduled for 2099-12-31T23:59:59Z")]).
Proof. reflexivity. Qed.

(** * Further properties of the store *)

Lemma get_found (t : Table) (i : string) (r : Row) :
  get t i = Some r -> In r t /\ id r = i.
Proof.
  unfold get. intros H. apply find_some in H.
  destruct H as [Hin Heq]. apply String.eqb_eq in Heq. auto.
Qed.

Lemma update_unknown_id (f : Row -> Row) (t : Table) (i : string) :
  get t i = None -> update_where_id i f t = t.
Proof.
  rewrite get_None. intros H. unfold update_where_id.
  rewrite <- (map_id t) at 2. apply map_ext_in.
  intros r Hr. apply H in Hr. apply String.eqb_neq in Hr.
  rewrite Hr. reflexivity.
Qed.

Lemma update_length (f : Row -> Row) (t : Table) (i : string) :
  List.length (update_where_id i f t) = List.length t.
Proof. unfold update_where_id. apply length_map. Qed.

Lemma never_pending_after_update (f : Row -> Row) (t : Table) (i : string) :
  keeps_id f -> (forall r, status (f r) <> "pending") ->
  get t i <> None -> never_pending i (update_where_id i f t).
Proof.
  intros Hf Hst Hex. split.
  - rewrite get_update_same by exact Hf.
    destruct (get t i); [discriminate | contradiction].
  - intros x Hx Hid. apply In_update in Hx. destruct Hx as [r [Hr ->]].
    destruct (String.eqb_spec (id r) i) as [_ | Hne]; [apply Hst | contradiction].
Qed.

Lemma never_pending_not_due (i : string) (t : Table) (ops : list Op)
  (now : string) (x : Row) :
  never_pending i t -> In x (get_due_at now (run_ops ops t)) -> id x <> i.
Proof.
  intros Hnp Hx Hid. apply get_due_at_In in Hx.
  destruct Hx as [Hin [Hst _]].
  apply (never_pending_run i ops) in Hnp.
  destruct Hnp as [_ Hall]. exact (Hall x Hin Hid Hst).
Qed.

(** ** add and get *)

Lemma add_fresh (t : Table) (i created k s : string)
  (u : option string) (v : string) :
  get t i = None ->
  add t i created k s u v
  = Ok ((t ++ [inserted_row i created k s u v])%list,
        Some (inserted_row i created k s u v))
  /\ get (t ++ [inserted_row i created k s u v])%list i
     = Some (inserted_row i created k s u v).
Proof.
  intros Hg.
  assert (Hrow : get (t ++ [inserted_row i created k s u v])%list i
                 = Some (inserted_row i created k s u v)).
  { rewrite get_app_fresh, Hg. simpl. rewrite String.eqb_refl. reflexivity. }
  split; [| exact Hrow].
  unfold add. rewrite Hg. fold (inserted_row i created k s u v).
  rewrite Hrow. reflexivity.
Qed.

(** X1.  With an id no row has yet, [add] appends exactly one row, at
    the end of the table: [inserted_row], which holds the values given,
    is pending with retry_count 0 and has no published_at, post_urn or
    error_message.  It is the row [add] returns and the row [get] then
    finds under the id; every other id still reads as before. *)
Theorem add_then_get (t : Table) (i created k s : string)
  (u : option string) (v : string) :
  get t i = None ->
  add t i created k s u v
  = Ok ((t ++ [inserted_row i created k s u v])%list,
        Some (inserted_row i created k s u v))
  /\ get (t ++ [inserted_row i created k s u v])%list i
     = Some (inserted_row i created k s u v)
  /\ (forall j, j <> i ->
                get (t ++ [inserted_row i created k s u v])%list j = get t j).
Proof.
  intros Hg.
  destruct (add_fresh t i created k s u v Hg) as [Hadd Hrow].
  split; [exact Hadd | split; [exact Hrow |]].
  intros j Hj. rewrite get_app_fresh. destruct (get t j); [reflexivity |].
  simpl. apply String.eqb_neq in Hj. rewrite String.eqb_sym in Hj.
  rewrite Hj. reflexivity.
Qed.

Lemma add_then_get_witness :
  get [pending_post] "z" = None
  /\ get ([pending_post]
          ++ [inserted_row "z" "2026-01-01T00:00:00+00:00" "hi"
                "2031-01-01T00:00:00Z" None "PUBLIC"])%list "z"
     = Some (inserted_row "z" "2026-01-01T00:00:00+00:00" "hi"
               "2031-01-01T00:00:00Z" None "PUBLIC").
Proof.
  split; [reflexivity |].
  apply (add_then_get [pending_post] "z" "2026-01-01T00:00:00+00:00" "hi"
           "2031-01-01T00:00:00Z" None "PUBLIC" eq_refl).
Defined.

(** X2.  [add] succeeds exactly when no row of the table has the id;
    otherwise the INSERT raises the primary-key error. *)
Theorem add_succeeds_iff_fresh (t : Table) (i created k s : string)
  (u : option string) (v : string) :
  ((exists res, add t i created k s u v = Ok res) <->
   (forall x, In x t -> id x <> i))
  /\ ((exists msg, add t i created k s u v = Raise (IntegrityError msg)) <->
      (exists x, In x t /\ id x = i)).
Proof.
  unfold add. destruct (get t i) as [r |] eqn:Hg.
  - apply get_found in Hg. destruct Hg as [Hin Hid].
    split; split.
    + intros [res H]. discriminate.
    + intros H. exfalso. exact (H r Hin Hid).
    + intros _. exists r. auto.
    + intros _. eexists. reflexivity.
  - pose proof (proj1 (get_None t i) Hg) as Hn.
    split; split.
    + intros _. exact Hn.
    + intros _. eexists. reflexivity.
    + intros [msg H]. discriminate.
    + intros [x [Hin Hid]]. exfalso. exact (Hn x Hin Hid).
Qed.

(** ** mark_published, mark_failed and cancel *)

(** X3.  On an id no row has, [mark_published] and [mark_failed]
    return [None] and leave the table as it was: no row is made up. *)
Theorem mark_unknown_id (t : Table) (now i urn msg : string) :
  get t i = None ->
  mark_published t now i urn = (t, None)
  /\ mark_failed t i msg = (t, None).
Proof.
  intros Hg. unfold mark_published, mark_failed.
  rewrite !update_unknown_id by exact Hg. rewrite Hg. auto.
Qed.

Lemma mark_unknown_id_witness :
  get [pending_post] "z" = None
  /\ mark_published [pending_post] "2030-01-01T00:00:00+00:00" "z" "urn:li:share:1"
     = ([pending_post], None).
Proof.
  split; [reflexivity |].
  apply (mark_unknown_id [pending_post] "2030-01-01T00:00:00+00:00" "z"
           "urn:li:share:1" "boom" eq_refl).
Defined.

(** X4.  On an id the table has, [mark_published] stores and returns
    a row that is published, with published_at the time given and
    post_urn the URN given; error_message, retry_count and the columns
    written at creation are as before.  No row is added or removed,
    every other id reads as before, and whatever store operations
    follow, no row with that id is due again. *)
Theorem mark_published_effect (t : Table) (now i urn : string) (r : Row) :
  get t i = Some r ->
  exists r',
    snd (mark_published t now i urn) = Some r'
    /\ get (fst (mark_published t now i urn)) i = Some r'
    /\ status r' = "published"
    /\ published_at r' = Some now
    /\ post_urn r' = Some urn
    /\ same_post r r'
    /\ error_message r' = error_message r
    /\ retry_count r' = retry_count r
    /\ List.length (fst (mark_published t now i urn)) = List.length t
    /\ (forall j, j <> i ->
                  get (fst (mark_published t now i urn)) j = get t j)
    /\ (forall (ops : list Op) (at_ : string) (x : Row),
           In x (get_due_at at_
                   (run_ops ops (fst (mark_published t now i urn)))) ->
           id x <> i).
Proof.
  intros Hg. exists (set_published now urn r).
  rewrite (mark_published_found t now i urn r Hg). simpl.
  split; [reflexivity |].
  split; [rewrite get_update_same by auto with store; rewrite Hg; reflexivity |].
  do 3 (split; [reflexivity |]).
  split; [repeat split |].
  do 2 (split; [reflexivity |]).
  split; [apply update_length |].
  split.
  - intros j Hj. apply get_update_other; auto with store.
  - intros ops at_ x. apply never_pending_not_due.
    apply never_pending_after_update; auto with store.
    + intros r0. discriminate.
    + rewrite Hg. discriminate.
Qed.

Lemma mark_published_effect_witness :
  get [pending_post] "a" = Some pending_post
  /\ exists r',
      snd (mark_published [pending_post] "2030-01-01T00:00:01+00:00" "a"
             "urn:li:share:1") = Some r'
      /\ status r' = "published"
      /\ post_urn r' = Some "urn:li:share:1".
Proof.
  split; [reflexivity |].
  destruct (mark_published_effect [pending_post] "2030-01-01T00:00:01+00:00"
              "a" "urn:li:share:1" pending_post eq_refl)
    as [r' [H1 [_ [H3 [_ [H5 _]]]]]].
  exists r'. auto.
Defined.

(** X5.  A successful [cancel] changes the status and nothing else:
    the row it stores and returns has every other column as before,
    error_message and retry_count included.  No row is added or
    removed, every other id reads as before, and whatever store
    operations follow, no row with that id is due again. *)
Theorem cancel_effect (t : Table) (i : string) (r : Row) :
  get t i = Some r -> status r = "pending" ->
  exists r',
    snd (cancel t i) = Some r'
    /\ get (fst (cancel t i)) i = Some r'
    /\ status r' = "cancelled"
    /\ same_post r r'
    /\ published_at r' = published_at r
    /\ post_urn r' = post_urn r
    /\ error_message r' = error_message r
    /\ retry_count r' = retry_count r
    /\ List.length (fst (cancel t i)) = List.length t
    /\ (forall j, j <> i -> get (fst (cancel t i)) j = get t j)
    /\ (forall (ops : list Op) (at_ : string) (x : Row),
           In x (get_due_at at_ (run_ops ops (fst (cancel t i)))) ->
           id x <> i).
Proof.
  intros Hg Hs. exists (set_cancelled r).
  rewrite (cancel_pending t i r Hg Hs). simpl.
  split; [reflexivity |].
  split; [rewrite get_update_same by auto with store; rewrite Hg; reflexivity |].
  split; [reflexivity |].
  split; [repeat split |].
  do 4 (split; [reflexivity |]).
  split; [apply update_length |].
  split.
  - intros j Hj. apply get_update_other; auto with store.
  - intros ops at_ x. apply never_pending_not_due.
    apply never_pending_after_update; auto with store.
    + intros r0. discriminate.
    + rewrite Hg. discriminate.
Qed.

Lemma cancel_effect_witness :
  get [pending_post] "a" = Some pending_post
  /\ status pending_post = "pending"
  /\ exists r', snd (cancel [pending_post] "a") = Some r'
                /\ status r' = "cancelled".
Proof.
  split; [reflexivity |]. split; [reflexivity |].
  destruct (cancel_effect [pending_post] "a" pending_post eq_refl eq_refl)
    as [r' [H1 [_ [H3 _]]]].
  exists r'. auto.
Defined.

(** ** What a sequence of operations keeps *)

Lemma same_post_refl (r : Row) : same_post r r.
Proof. repeat split. Qed.

Lemma same_post_trans (a b c : Row) :
  same_post a b -> same_post b c -> same_post a c.
Proof.
  unfold same_post. intros H1 H2. break_hyps.
  repeat split; congruence.
Qed.

Lemma history_step (t : Table) (o : Op) (i : string) (r : Row) :
  get t i = Some r ->
  exists r',
    get (apply_op t o) i = Some r'
    /\ same_post r r'
    /\ retry_count r' = retry_count r + (if hits_failed i o then 1 else 0).
Proof.
  intros Hg. destruct o as [j c k s u v | now j urn | j msg | j]; simpl.
  - exists r. split; [| split; [apply same_post_refl | lia]].
    unfold add. destruct (get t j); [exact Hg |]. simpl.
    rewrite get_app_fresh, Hg. reflexivity.
  - destruct (String.eqb_spec j i) as [-> | Hne].
    + exists (set_published now urn r).
      rewrite get_update_same by auto with store. rewrite Hg.
      split; [reflexivity |]. split; [repeat split | simpl; lia].
    + exists r. rewrite get_update_other by auto with store.
      split; [exact Hg |]. split; [apply same_post_refl | lia].
  - destruct (String.eqb_spec j i) as [-> | Hne].
    + exists (set_failed msg r).
      rewrite get_update_same by auto with store. rewrite Hg.
      split; [reflexivity |]. split; [repeat split | reflexivity].
    + exists r. rewrite get_update_other by auto with store.
      split; [exact Hg |]. split; [apply same_post_refl | lia].
  - destruct (cancel_table t j) as [-> | [x [_ [_ ->]]]].
    + exists r. split; [exact Hg |]. split; [apply same_post_refl | lia].
    + destruct (String.eqb_spec j i) as [-> | Hne].
      * exists (set_cancelled r).
        rewrite get_update_same by auto with store. rewrite Hg.
        split; [reflexivity |]. split; [repeat split | simpl; lia].
      * exists r. rewrite get_update_other by auto with store.
        split; [exact Hg |]. split; [apply same_post_refl | lia].
Qed.

(** X6.  No sequence of store operations deletes or rewrites a post:
    an id the table has keeps a row, whose id, commentary, url,
    visibility, scheduled_time and created_at stay as they were, and
    whose retry_count has grown by exactly the number of [mark_failed]
    calls on that id. *)
Theorem history_of_a_post (ops : list Op) (t : Table) (i : string) (r : Row) :
  get t i = Some r ->
  exists r',
    get (run_ops ops t) i = Some r'
    /\ same_post r r'
    /\ retry_count r' = retry_count r + Z.of_nat (failures_of i ops).
Proof.
  revert t r. induction ops as [| o rest IH]; intros t r Hg.
  - exists r. split; [exact Hg |]. split; [apply same_post_refl |].
    unfold failures_of. simpl. lia.
  - destruct (history_step t o i r Hg) as [r1 [Hg1 [Hs1 Hc1]]].
    destruct (IH (apply_op t o) r1 Hg1) as [r' [Hg' [Hs' Hc']]].
    exists r'. split; [exact Hg' |].
    split; [eapply same_post_trans; eassumption |].
    rewrite Hc', Hc1. unfold failures_of. simpl.
    destruct (hits_failed i o); simpl List.length; lia.
Qed.

Lemma history_of_a_post_witness :
  get [pending_post] "a" = Some pending_post
  /\ exists r',
      get (run_ops [OpMarkFailed "a" "boom"; OpCancel "a";
                    OpMarkFailed "a" "again"] [pending_post]) "a" = Some r'
      /\ scheduled_time r' = scheduled_time pending_post
      /\ retry_count r' = 0 + 2.
Proof.
  split; [reflexivity |].
  destruct (history_of_a_post
              [OpMarkFailed "a" "boom"; OpCancel "a"; OpMarkFailed "a" "again"]
              [pending_post] "a" pending_post eq_refl)
    as [r' [H1 [H2 H3]]].
  exists r'. split; [exact H1 |]. split; [apply H2 | exact H3].
Defined.





Lemma consistent_step (t : Table) (o : Op) :
  unique_ids t -> Forall consistent_row t ->
  Forall consistent_row (apply_op t o).
Proof.
  intros Hu Ht. destruct o as [j c k s u v | now j urn | j msg | j]; simpl.
  - unfold add. destruct (get t j); [exact Ht |]. simpl.
    apply Forall_app. split; [exact Ht |].
    constructor; [| constructor].
    unfold consistent_row, untouched. simpl. intuition (try discriminate; lia).
  - apply Forall_update; [exact Ht |]. intros r Hr _.
    rewrite Forall_forall in Ht. specialize (Ht r Hr).
    unfold consistent_row, untouched in *. simpl.
    intuition (try discriminate; try lia).
  - apply Forall_update; [exact Ht |]. intros r Hr _.
    rewrite Forall_forall in Ht. specialize (Ht r Hr).
    unfold consistent_row, untouched in *. simpl.
    intuition (try discriminate; try lia).
  - destruct (cancel_table t j) as [-> | [x [Hg [Hs ->]]]]; [exact Ht |].
    apply Forall_update; [exact Ht |]. intros r Hr Hid.
    rewrite Forall_forall in Ht. specialize (Ht r Hr).
    rewrite <- Hid in Hg. rewrite (unique_ids_get t r Hu Hr) in Hg.
    injection Hg as ->.
    unfold consistent_row, untouched in *. simpl.
    intuition (try discriminate; try lia).
Qed.

Lemma consistent_run (ops : list Op) (t : Table) :
  unique_ids t -> Forall consistent_row t ->
  Forall consistent_row (run_ops ops t).
Proof.
  revert t. induction ops as [| o rest IH]; intros t Hu Ht; simpl.
  - exact Ht.
  - apply IH; [apply unique_ids_step, Hu | apply consistent_step; assumption].
Qed.

(** X8.  Every row of a table built from the empty one by store
    operations alone is consistent: its status is one of pending,
    published, failed, cancelled; its retry_count is not negative and
    is 0 exactly when it has no error_message; post_urn and
    published_at are set together; a failed row has an error_message;
    and a pending or cancelled row has never been dispatched (no
    published_at, post_urn or error_message, retry_count 0). *)
Theorem store_rows_consistent (ops : list Op) (r : Row) :
  In r (run_ops ops []) -> consistent_row r.
Proof.
  intros Hin.
  pose proof (consistent_run ops [] (NoDup_nil _) (Forall_nil _)) as H.
  rewrite Forall_forall in H. exact (H r Hin).
Qed.

Lemma store_rows_consistent_witness :
  In (set_failed "boom"
        (set_published "2030-01-01T00:00:01+00:00" "urn:li:share:1"
           (inserted_row "a" "2026-01-01T00:00:00+00:00" "hello"
              "2030-01-01T00:00:00Z" None "PUBLIC")))
     (run_ops publish_then_fail [])
  /\ consistent_row
       (set_failed "boom"
          (set_published "2030-01-01T00:00:01+00:00" "urn:li:share:1"
             (inserted_row "a" "2026-01-01T00:00:00+00:00" "hello"
                "2030-01-01T00:00:00Z" None "PUBLIC"))).
Proof.
  assert (Hin : In (set_failed "boom"
                      (set_published "2030-01-01T00:00:01+00:00" "urn:li:share:1"
                         (inserted_row "a" "2026-01-01T00:00:00+00:00" "hello"
                            "2030-01-01T00:00:00Z" None "PUBLIC")))
                   (run_ops publish_then_fail []))
    by (left; reflexivity).
  split; [exact Hin |].
  exact (store_rows_consistent publish_then_fail _ Hin).
Defined.

(** ** list *)

Lemma filter_all {A : Type} (f : A -> bool) (l : list A) :
  (forall x, In x l -> f x = true) -> filter f l = l.
Proof.
  induction l as [| x rest IH]; simpl; intros H; [reflexivity |].
  rewrite (H x) by auto. rewrite IH by auto. reflexivity.
Qed.

Lemma list_as_query (t : Table) (status_ : option string) (limit : Z) :
  fits_int64 limit = true ->
  list_ t status_ limit
  = Ok (sql_limit limit (order_by_scheduled_time (filter (wanted status_) t))).
Proof.
  intros Hfit. unfold list_. rewrite Hfit.
  destruct status_ as [s |].
  - destruct (s =? "")%string eqn:Es.
    + rewrite filter_all; [reflexivity |].
      intros x _. simpl. rewrite Es. reflexivity.
    + do 3 f_equal. apply filter_ext. intros x. simpl. rewrite Es. reflexivity.
  - rewrite filter_all by reflexivity. reflexivity.
Qed.

Lemma sql_limit_firstn {A : Type} (n : Z) (rows : list A) :
  exists k, sql_limit n rows = firstn k rows.
Proof.
  unfold sql_limit. destruct (n <? 0).
  - exists (List.length rows). rewrite firstn_all. reflexivity.
  - eexists. reflexivity.
Qed.






(** X10.  [list] fails exactly when the limit does not fit a signed
    64-bit integer, with an OverflowError, whatever the table and the
    status; an empty status selects the same rows as no status; a limit
    of 0 gives the empty list. *)
Theorem list_edge_cases (t : Table) (status_ : option string) (limit : Z) :
  ((exists e, list_ t status_ limit = Raise e) <->
   (limit < - 2 ^ 63 \/ 2 ^ 63 - 1 < limit))
  /\ (forall e, list_ t status_ limit = Raise e ->
                exists msg, e = OverflowError msg)
  /\ list_ t (Some "") limit = list_ t None limit
  /\ list_ t status_ 0 = Ok [].
Proof.
  split; [| split; [| split]].
  - unfold list_, fits_int64.
    destruct (Z.leb_spec (- 2 ^ 63) limit), (Z.leb_spec limit (2 ^ 63 - 1));
      simpl.
    + split; [| lia]. intros [e He].
      destruct status_ as [s |]; [destruct (s =? "")%string |]; discriminate.
    + split; [intros _; lia | intros _; eexists; reflexivity].
    + split; [intros _; lia | intros _; eexists; reflexivity].
    + split; [intros _; lia | intros _; eexists; reflexivity].
  - unfold list_. intros e H. destruct (fits_int64 limit).
    + destruct status_ as [s |]; [destruct (s =? "")%string |]; discriminate.
    + injection H as <-. eexists. reflexivity.
  - reflexivity.
  - rewrite list_as_query by reflexivity. reflexivity.
Qed.

(** ** get_due *)

(** X11.  The due set only grows with time while rows stay pending:
    a row due at [now1] is due at every [now2] that is not before
    [now1] in the order of the query. *)
Theorem get_due_at_monotone (now1 now2 : string) (t : Table) (r : Row) :
  text_leb now1 now2 = true ->
  In r (get_due_at now1 t) -> In r (get_due_at now2 t).
Proof.
  intros Hle Hr. apply get_due_at_In in Hr. apply get_due_at_In.
  destruct Hr as [Hin [Hs Ht]]. split; [exact Hin |]. split; [exact Hs |].
  eapply text_leb_trans; eassumption.
Qed.

Lemma get_due_at_monotone_witness :
  text_leb "2030-06-01T00:00:00+00:00" "2031-01-01T00:00:00+00:00" = true
  /\ In pending_post (get_due_at "2030-06-01T00:00:00+00:00" [pending_post])
  /\ In pending_post (get_due_at "2031-01-01T00:00:00+00:00" [pending_post]).
Proof.
  assert (H1 : text_leb "2030-06-01T00:00:00+00:00" "2031-01-01T00:00:00+00:00"
               = true) by reflexivity.
  assert (H2 : In pending_post
                 (get_due_at "2030-06-01T00:00:00+00:00" [pending_post]))
    by (left; reflexivity).
  split; [exact H1 |]. split; [exact H2 |].
  exact (get_due_at_monotone _ _ _ _ H1 H2).
Defined.

(** * Further properties of the dispatch loop *)

Section DispatchFrame.

Context {env : Environment}.

Lemma dispatch_loop_ids (due : list Row) :
  forall (w : World) (t : Table) (out : list Event),
    map id (snd (fst (fold_left dispatch_one due (w, t, out)))) = map id t.
Proof.
  induction due as [| p rest IH]; intros w t out; cbn [fold_left].
  - reflexivity.
  - destruct (dispatch_one_step w t out p) as [w1 [a [f [line [E [Hf _]]]]]].
    rewrite E, IH. apply ids_update, Hf.
Qed.

Lemma run_scheduler_whole (w : World) (t : Table) :
  unique_ids t ->
  exists w' t' out,
    run_scheduler w t = (w', t', out)
    /\ map id t' = map id t
    /\ Forall2 (fun p a => exists r, get t' (id p) = Some r
                                     /\ outcome_row a p r)
         (snd (get_due w t)) (answers out)
    /\ (forall j, ~ In j (map id (snd (get_due w t))) -> get t' j = get t j)
    /\ (snd (get_due w t) = [] ->
        t' = t /\ out = [Printed "No posts due for publishing."]).
Proof.
  intros Hu. unfold run_scheduler, get_due.
  destruct (utcnow w) as [w0 n]. simpl.
  destruct (due_rows_are_stored (isoformat n) t Hu) as [Hnd Hget].
  destruct (get_due_at (isoformat n) t) as [| p rest] eqn:Hdue.
  - exists w0, t, [Printed "No posts due for publishing."].
    simpl. repeat split; auto.
  - pose proof (dispatch_loop_ids (p :: rest) w0 t []) as Hids.
    destruct (dispatch_loop (p :: rest) w0 t [] Hnd Hget)
      as [w' [t' [out' [ans [E [_ [Han [Hall Hother]]]]]]]].
    rewrite E in Hids. simpl in Hids.
    exists w', t', out'. simpl in Han. subst ans.
    repeat split; auto; discriminate.
Qed.

End DispatchFrame.

(** X12.  A run touches the due posts only.  It adds and removes no
    row, and every id that was not due reads after the run as it did
    before.  When nothing is due the table is unchanged, no request is
    made and the one line printed says so. *)
Theorem run_scheduler_frame {env : Environment} (w : World) (t : Table) :
  unique_ids t ->
  exists w' t' out,
    run_scheduler w t = (w', t', out)
    /\ map id t' = map id t
    /\ (forall j, ~ In j (map id (snd (get_due w t))) -> get t' j = get t j)
    /\ (snd (get_due w t) = [] ->
        t' = t /\ calls out = []
        /\ out = [Printed "No posts due for publishing."]).
Proof.
  intros Hu.
  destruct (run_scheduler_whole w t Hu)
    as [w' [t' [out [E [Hids [_ [Hframe Hnone]]]]]]].
  exists w', t', out. repeat split; auto.
  - apply Hnone, H.
  - destruct (Hnone H) as [_ ->]. reflexivity.
  - apply Hnone, H.
Qed.

Lemma run_scheduler_frame_witness :
  unique_ids two_due
  /\ exists w' t' out,
      run_scheduler (env := Scripted.environment)
        (one_run [Raise (SdkError "rate limited"); Ok "urn:li:share:2"])
        two_due = (w', t', out)
      /\ map id t' = map id two_due.
Proof.
  split; [exact two_due_unique |].
  destruct (run_scheduler_frame (env := Scripted.environment)
              (one_run [Raise (SdkError "rate limited"); Ok "urn:li:share:2"])
              two_due two_due_unique)
    as [w' [t' [out [E [Hids _]]]]].
  exists w', t', out. auto.
Defined.

(** X13.  In a run over a table with a primary key, every post for
    whose request [client_call] returned a URN ends the run stored as
    published, with that URN as post_urn and a published_at; its
    retry_count, its error_message and the columns written at creation
    are as they were. *)
Theorem run_scheduler_publishes {env : Environment} (w : World) (t : Table) :
  unique_ids t ->
  exists w' t' out,
    run_scheduler w t = (w', t', out)
    /\ Forall2 (fun p a => forall urn, a = Ok urn ->
                  exists r, get t' (id p) = Some r
                            /\ status r = "published"
                            /\ post_urn r = Some urn
                            /\ published_at r <> None
                            /\ same_post p r
                            /\ retry_count r = retry_count p
                            /\ error_message r = error_message p)
         (snd (get_due w t))
         (sdk_answers (fst (get_due w t)) (snd (get_due w t))).
Proof.
  intros Hu.
  destruct (run_scheduler_outcomes w t Hu) as [w' [t' [out [E [_ [_ Hall]]]]]].
  exists w', t', out. split; [exact E |].
  eapply Forall2_impl; [| exact Hall].
  intros p a [r [Hg Ho]] urn ->. simpl in Ho. destruct Ho as [now ->].
  eexists. split; [exact Hg |]. simpl.
  repeat split. discriminate.
Qed.

Lemma run_scheduler_publishes_witness :
  unique_ids two_due
  /\ sdk_answers (env := Scripted.environment)
       (fst (get_due (env := Scripted.environment)
               (one_run [Ok "urn:li:share:1"; Ok "urn:li:share:2"]) two_due))
       two_due
     = [Ok "urn:li:share:1"; Ok "urn:li:share:2"]
  /\ exists w' t' out r,
      run_scheduler (env := Scripted.environment)
        (one_run [Ok "urn:li:share:1"; Ok "urn:li:share:2"]) two_due
      = (w', t', out)
      /\ get t' "a" = Some r
      /\ status r = "published"
      /\ post_urn r = Some "urn:li:share:1".
Proof.
  split; [exact two_due_unique |]. split; [reflexivity |].
  destruct (run_scheduler_publishes (env := Scripted.environment)
              (one_run [Ok "urn:li:share:1"; Ok "urn:li:share:2"])
              two_due two_due_unique)
    as [w' [t' [out [E Hall]]]].
  change (snd (get_due (env := Scripted.environment)
                 (one_run [Ok "urn:li:share:1"; Ok "urn:li:share:2"]) two_due))
    with [pending_2025_12_30; pending_2025_12_31] in Hall.
  change (sdk_answers (env := Scripted.environment)
            (fst (get_due (env := Scripted.environment)
                    (one_run [Ok "urn:li:share:1"; Ok "urn:li:share:2"])
                    two_due))
            [pending_2025_12_30; pending_2025_12_31])
    with [Ok "urn:li:share:1"; Ok "urn:li:share:2"] in Hall.
  apply Forall2_head in Hall.
  destruct (Hall "urn:li:share:1" eq_refl) as [r [Hg [Hs [Hu _]]]].
  exists w', t', out, r. repeat split; assumption.
Defined.

(** X14.  A run leaves nothing behind for its own time: in the table
    it returns, no row is due at the time the run read, nor at any
    earlier time; and at no time at all is a post it dispatched due
    again.  A second run with the same clock reading finds nothing to
    do. *)
Theorem run_scheduler_leaves_nothing_due {env : Environment}
  (w : World) (t : Table) :
  unique_ids t ->
  (forall now,
      text_leb now (isoformat (snd (utcnow w))) = true ->
      get_due_at now (snd (fst (run_scheduler w t))) = [])
  /\ (forall now x,
         In x (get_due_at now (snd (fst (run_scheduler w t)))) ->
         ~ In (id x) (map id (snd (get_due w t)))).
Proof.
  intros Hu.
  destruct (run_scheduler_whole w t Hu)
    as [w' [t' [out [E [Hids [Hall [Hframe _]]]]]]].
  rewrite E. simpl.
  assert (Hu' : unique_ids t') by (unfold unique_ids; rewrite Hids; exact Hu).
  assert (Hnot : forall now x, In x (get_due_at now t') ->
                               ~ In (id x) (map id (snd (get_due w t)))).
  { intros now x Hx Hin. apply get_due_at_In in Hx.
    destruct Hx as [Hxt [Hst _]].
    apply in_map_iff in Hin. destruct Hin as [p [Hid Hp]].
    destruct (Forall2_In_left _ _ _ p Hall Hp) as [a [_ [r [Hg Ho]]]].
    rewrite Hid, (unique_ids_get t' x Hu' Hxt) in Hg. injection Hg as <-.
    destruct a as [urn | e]; simpl in Ho.
    - destruct Ho as [n ->]. discriminate.
    - subst x. discriminate. }
  split; [| exact Hnot].
  intros now Hle.
  destruct (get_due_at now t') as [| x rest] eqn:Hdue; [reflexivity |].
  exfalso.
  assert (Hx : In x (get_due_at now t')) by (rewrite Hdue; left; reflexivity).
  apply (Hnot now x Hx).
  apply get_due_at_In in Hx. destruct Hx as [Hxt [Hst Htime]].
  destruct (in_dec string_dec (id x) (map id (snd (get_due w t))))
    as [Hin | Hout]; [exact Hin |].
  exfalso. apply Hout.
  pose proof (unique_ids_get t' x Hu' Hxt) as Hg.
  rewrite (Hframe (id x) Hout) in Hg. apply get_found in Hg.
  apply in_map. unfold get_due. destruct (utcnow w) as [w0 n]. simpl in *.
  apply get_due_at_In. split; [apply Hg |]. split; [exact Hst |].
  eapply text_leb_trans; eassumption.
Qed.

Lemma run_scheduler_leaves_nothing_due_witness :
  unique_ids two_due
  /\ get_due_at "2026-01-01T00:00:00+00:00"
       (snd (fst (run_scheduler (env := Scripted.environment)
                    (one_run [Raise (SdkError "rate limited");
                              Ok "urn:li:share:2"]) two_due)))
     = [].
Proof.
  split; [exact two_due_unique |].
  apply (run_scheduler_leaves_nothing_due (env := Scripted.environment)
           (one_run [Raise (SdkError "rate limited"); Ok "urn:li:share:2"])
           two_due two_due_unique).
  reflexivity.
Defined.

(** * Further properties of the tools *)

(** X15.  [schedule_post] writes one row or none: either it answers
    with the structured error and the table is as it was, or it appends
    exactly one row, pending, untouched, holding the commentary,
    scheduled_time, url and visibility it was given under an id no
    row had, and answers with that id.  Rows already stored are never
    changed. *)
Theorem schedule_post_one_row_or_none {env : Environment}
  (w : World) (t : Table) (k s : string) (u : option string) (v : string) :
  exists w' t' response,
    schedule_post w t k s u v = (w', t', response)
    /\ ((is_error_response response = true /\ t' = t)
        \/ (exists i created,
               get t i = None
               /\ t' = (t ++ [inserted_row i created k s u v])%list
               /\ response = scheduled_response i s)).
Proof.
  unfold schedule_post.
  destruct (fromisoformat (replace_Z s)) as [[n | a] | e].
  - destruct (utcnow w) as [w1 now].
    eexists _, _, _. split; [reflexivity |]. left. split; reflexivity.
  - destruct (utcnow w) as [w1 now]. destruct (a <=? now).
    + eexists _, _, _. split; [reflexivity |]. left. split; reflexivity.
    + unfold db_add. destruct (uuid4 w1) as [w2 i].
      destruct (utcnow w2) as [w3 created].
      destruct (get t i) as [x |] eqn:Hg.
      * unfold add. rewrite Hg.
        eexists _, _, _. split; [reflexivity |]. left. split; reflexivity.
      * destruct (add_fresh t i (isoformat created) k s u v Hg) as [-> _].
        eexists _, _, _. split; [reflexivity |]. right.
        exists i, (isoformat created). repeat split. exact Hg.
  - eexists _, _, _. split; [reflexivity |]. left. split; reflexivity.
Qed.

(** X16.  When scheduled_time parses to a time with a UTC offset that
    is strictly after the clock reading, and the id drawn is new,
    [schedule_post] stores the post, whatever the commentary, url and
    visibility are: the row is appended with the id drawn and the
    second clock reading as created_at, the response names the id, and
    [get_scheduled_post] with that id then shows the row, with status
    pending. *)
Theorem schedule_post_accepts {env : Environment}
  (w : World) (t : Table) (k s : string) (u : option string) (v : string)
  (a : Z) :
  fromisoformat (replace_Z s) = Ok (Aware a) ->
  snd (utcnow w) < a ->
  get t (snd (uuid4 (fst (utcnow w)))) = None ->
  exists w' i created,
    i = snd (uuid4 (fst (utcnow w)))
    /\ schedule_post w t k s u v
       = (w', (t ++ [inserted_row i created k s u v])%list,
          scheduled_response i s)
    /\ get_scheduled_post (t ++ [inserted_row i created k s u v])%list i
       = JObj [("post", dict_of_row (inserted_row i created k s u v));
               ("message", JStr "Status: pending")].
Proof.
  intros Hparse Hfuture Hfresh. unfold schedule_post. rewrite Hparse.
  destruct (utcnow w) as [w1 now]. cbn [fst snd] in *.
  apply Z.leb_gt in Hfuture. rewrite Hfuture.
  unfold db_add. destruct (uuid4 w1) as [w2 i]. cbn [fst snd] in *.
  destruct (utcnow w2) as [w3 created].
  destruct (add_fresh t i (isoformat created) k s u v Hfresh)
    as [Hadd Hget].
  rewrite Hadd.
  exists w3, i, (isoformat created).
  split; [reflexivity |]. split; [reflexivity |].
  unfold get_scheduled_post. rewrite Hget. reflexivity.
Qed.

Lemma schedule_post_accepts_witness :
  Scripted.parse_table (replace_Z "2099-12-31T23:59:59Z")
  = Ok (Aware 4102444799000000)
  /\ snd (Scripted.read_clock one_request) < 4102444799000000
  /\ exists w' i created,
      schedule_post (env := Scripted.environment) one_request [pending_post]
        "" "2099-12-31T23:59:59Z" None "PUBLIC"
      = (w', ([pending_post]
              ++ [inserted_row i created "" "2099-12-31T23:59:59Z"
                    None "PUBLIC"])%list,
         scheduled_response i "2099-12-31T23:59:59Z").
Proof.
  split; [reflexivity |]. split; [simpl; lia |].
  destruct (schedule_post_accepts (env := Scripted.environment)
              one_request [pending_post] "" "2099-12-31T23:59:59Z" None
              "PUBLIC" 4102444799000000 eq_refl
              ltac:(simpl; lia) eq_refl)
    as [w' [i [created [_ [H _]]]]].
  exists w', i, created. exact H.
Defined.

Lemma json_of_text_inj (a b : option string) :
  json_of_text a = json_of_text b -> a = b.
Proof.
  destruct a, b; simpl; intros H; try discriminate; [| reflexivity].
  injection H as ->. reflexivity.
Qed.

Lemma dict_of_row_inj (a b : Row) : dict_of_row a = dict_of_row b -> a = b.
Proof.
  destruct a, b. unfold dict_of_row. simpl. intros H.
  injection H as H1 H2 H3 H4 H5 H6 H7 H8 H9 H10 H11.
  apply json_of_text_inj in H3, H8, H9, H10. subst. reflexivity.
Qed.

(** X17.  [get_scheduled_post] answers with the structured error
    exactly when no row has the id.  Otherwise its answer shows every
    column of the stored row: two tables get the same answer for an id
    only if they hold the same row under it, or both hold none. *)
Theorem get_scheduled_post_shows_the_row (t1 t2 : Table) (i : string) :
  (is_error_response (get_scheduled_post t1 i) = true <-> get t1 i = None)
  /\ (get_scheduled_post t1 i = get_scheduled_post t2 i ->
      get t1 i = get t2 i).
Proof.
  unfold get_scheduled_post. split.
  - destruct (get t1 i); simpl; split; intros H; try discriminate; reflexivity.
  - destruct (get t1 i) as [a |], (get t2 i) as [b |]; intros H;
      try discriminate; [| reflexivity].
    remember (dict_of_row a) as da eqn:Ea.
    remember (dict_of_row b) as db eqn:Eb.
    injection H as H _. subst. apply dict_of_row_inj in H. subst.
    reflexivity.
Qed.

(** X18.  On a pending post [cancel_scheduled_post] answers with
    success and the id; [get_scheduled_post] then shows the row as
    cancelled, otherwise unchanged; and a second
    [cancel_scheduled_post] is refused and leaves the table alone. *)
Theorem cancel_scheduled_post_then_get (t : Table) (i : string) (r : Row) :
  get t i = Some r -> status r = "pending" ->
  exists t',
    cancel_scheduled_post t i = (t', cancelled_response i)
    /\ get_scheduled_post t' i
       = JObj [("post", dict_of_row (set_cancelled r));
               ("message", JStr "Status: cancelled")]
    /\ cancel_scheduled_post t' i = (t', refusal_response i).
Proof.
  intros Hg Hs. exists (update_where_id i set_cancelled t).
  assert (Hg' : get (update_where_id i set_cancelled t) i
                = Some (set_cancelled r))
    by (rewrite get_update_same by auto with store; rewrite Hg; reflexivity).
  destruct (get_found t i r Hg) as [_ Hid].
  split; [| split].
  - unfold cancel_scheduled_post. rewrite (cancel_pending t i r Hg Hs).
    simpl. rewrite Hid. reflexivity.
  - unfold get_scheduled_post. rewrite Hg'. reflexivity.
  - unfold cancel_scheduled_post.
    rewrite (cancel_not_pending _ i _ Hg'); [reflexivity |].
    simpl. discriminate.
Qed.

Lemma cancel_scheduled_post_then_get_witness :
  get [pending_post] "a" = Some pending_post
  /\ status pending_post = "pending"
  /\ exists t',
      cancel_scheduled_post [pending_post] "a" = (t', cancelled_response "a")
      /\ cancel_scheduled_post t' "a" = (t', refusal_response "a").
Proof.
  split; [reflexivity |]. split; [reflexivity |].
  destruct (cancel_scheduled_post_then_get [pending_post] "a" pending_post
              eq_refl eq_refl) as [t' [H1 [_ H3]]].
  exists t'. auto.
Defined.

(** X19.  [list_scheduled_posts] answers with the structured error
    exactly when the limit does not fit 64 bits.  Otherwise its count is
    the number of posts it lists, which is at most the number of rows
    of the table and, for a limit that is not negative, at most the
    limit; the posts are the rows [list] returns, column by column. *)
Theorem list_scheduled_posts_result (t : Table) (status_ : option string)
  (limit : Z) :
  (fits_int64 limit = false ->
   exists j, list_scheduled_posts t status_ limit = inl j
             /\ is_error_response j = true)
  /\ (fits_int64 limit = true ->
      exists rows l,
        list_ t status_ limit = Ok rows
        /\ list_scheduled_posts t status_ limit = inr l
        /\ posts l = map dict_of_row rows
        /\ count l = Z.of_nat (List.length (posts l))
        /\ count l <= Z.of_nat (List.length t)
        /\ (0 <= limit -> count l <= limit)).
Proof.
  unfold list_scheduled_posts. split; intros Hfit.
  - unfold list_. rewrite Hfit. eexists. split; reflexivity.
  - rewrite (list_as_query t status_ limit Hfit).
    eexists _, _. split; [reflexivity |]. split; [reflexivity |]. simpl.
    split; [reflexivity |]. split; [rewrite length_map; reflexivity |].
    split.
    + destruct (sql_limit_firstn limit
                  (order_by_scheduled_time (filter (wanted status_) t)))
        as [n ->].
      rewrite length_firstn, order_by_scheduled_time_length.
      pose proof (filter_length_le (wanted status_) t). lia.
    + apply sql_limit_length.
Qed.

Example list_scheduled_posts_pending :
  list_scheduled_posts mixed_table (Some "pending") 50
  = inr (mkListing
           [dict_of_row (sample_row "d" "pending" "2026-06-01T00:00:00Z" None);
            dict_of_row (sample_row "c" "pending" "2027-03-01T00:00:00Z" None)]
           2 "Found 2 pending scheduled posts").
Proof. reflexivity. Qed.

Example list_scheduled_posts_all :
  option_map message
    (match list_scheduled_posts mixed_table (Some "") 1 with
     | inr l => Some l
     | inl _ => None
     end)
  = Some "Found 1 all scheduled posts".
Proof. reflexivity. Qed.

(** ** _mask_token *)

Lemma length_append (a b : string) :
  String.length (a ++ b)%string = (String.length a + String.length b)%nat.
Proof. induction a as [| c a IH]; simpl; [reflexivity | rewrite IH; reflexivity]. Qed.

Lemma substring_whole (s : string) : substring 0 (String.length s) s = s.
Proof. induction s as [| c s IH]; simpl; [reflexivity | rewrite IH; reflexivity]. Qed.

Lemma substring_head (a s : string) :
  substring 0 (String.length a) (a ++ s)%string = a.
Proof.
  induction a as [| c a IH]; simpl.
  - destruct s; reflexivity.
  - rewrite IH. reflexivity.
Qed.

Lemma substring_tail (p b : string) :
  substring (String.length p) (String.length b) (p ++ b)%string = b.
Proof.
  induction p as [| c p IH]; simpl; [apply substring_whole | exact IH].
Qed.

Lemma mask_long (token : string) :
  (12 <= String.length token)%nat ->
  _mask_token token
  = (substring 0 4 token ++ "..."
     ++ substring (String.length token - 4) 4 token)%string.
Proof.
  intros H. unfold _mask_token.
  destruct token as [| c rest]; [simpl in H; lia |].
  destruct (Nat.ltb_spec (String.length (String c rest)) 12) as [Hlt | _];
    [lia |].
  reflexivity.
Qed.

(** X20.  [_mask_token] shows the first four and the last four
    characters of a token of twelve characters or more, and nothing of
    what lies between: two such tokens with the same ends are masked
    alike, whatever their middles and their lengths.  A token shorter
    than twelve characters, the empty one included, is masked as
    "****", which shows none of it. *)
Theorem mask_token_hides (a b m1 m2 : string) :
  String.length a = 4%nat -> String.length b = 4%nat ->
  (4 <= String.length m1)%nat -> (4 <= String.length m2)%nat ->
  _mask_token (a ++ m1 ++ b) = (a ++ "..." ++ b)%string
  /\ _mask_token (a ++ m1 ++ b) = _mask_token (a ++ m2 ++ b)
  /\ (forall token, (String.length token < 12)%nat ->
                    _mask_token token = "****").
Proof.
  intros Ha Hb H1 H2.
  assert (Hmask : forall m, (4 <= String.length m)%nat ->
                            _mask_token (a ++ m ++ b) = (a ++ "..." ++ b)%string).
  { intros m Hm. rewrite mask_long by (rewrite !length_append; lia).
    rewrite <- Ha at 1. rewrite substring_head.
    replace (a ++ m ++ b)%string with ((a ++ m) ++ b)%string
      by (clear; induction a as [| c a IH]; simpl;
          [reflexivity | rewrite IH; reflexivity]).
    replace (String.length ((a ++ m) ++ b) - 4)%nat
      with (String.length (a ++ m)%string)
      by (rewrite (length_append (a ++ m) b); lia).
    rewrite <- Hb at 1. rewrite substring_tail. reflexivity. }
  split; [apply Hmask, H1 |].
  split; [rewrite !Hmask by assumption; reflexivity |].
  intros token Hlt. unfold _mask_token.
  destruct (Nat.ltb_spec (String.length token) 12) as [_ | Hge]; [| lia].
  rewrite orb_true_r. reflexivity.
Qed.

Lemma mask_token_hides_witness :
  String.length "AQXk" = 4%nat
  /\ String.length "9fZ2" = 4%nat
  /\ _mask_token ("AQXk" ++ "secret-part" ++ "9fZ2") = "AQXk...9fZ2"
  /\ _mask_token ("AQXk" ++ "secret-part" ++ "9fZ2")
     = _mask_token ("AQXk" ++ "other" ++ "9fZ2").
Proof.
  pose proof (mask_token_hides "AQXk" "9fZ2" "secret-part" "other"
                eq_refl eq_refl ltac:(simpl; lia) ltac:(simpl; lia)) as W.
  split; [reflexivity |]. split; [reflexivity |]. split; apply W.
Defined.

(** ** What a run prints *)

(** X21.  The events of a run, in full.  When nothing is due the run
    prints the one line that says so.  Otherwise, for each due post in
    the order of [get_due], it makes the request for that post and then
    prints one line: "Published: id -> urn" when [client_call]
    returned a URN for that request, "Failed: id -> message" when it
    raised; the answer is logged as it came; nothing else is requested
    or printed, and no post is tried twice. *)
Theorem run_scheduler_trace {env : Environment} (w : World) (t : Table) :
  exists w' t' out,
    run_scheduler w t = (w', t', out)
    /\ out = match snd (get_due w t) with
             | [] => [Printed "No posts due for publishing."]
             | _ :: _ =>
                 flat_map turn
                   (combine (snd (get_due w t))
                      (sdk_answers (fst (get_due w t)) (snd (get_due w t))))
             end
    /\ List.length (sdk_answers (fst (get_due w t)) (snd (get_due w t)))
       = List.length (snd (get_due w t)).
Proof.
  destruct (run_scheduler_events w t) as [w' [t' [out [E [Hout _]]]]].
  exists w', t', out. split; [exact E |]. split; [exact Hout |].
  apply sdk_answers_length.
Qed.

(** ** The Z of scheduled_time *)

(** X22.  The rewriting of scheduled_time before it is parsed replaces
    every "Z", wherever it stands, by "+00:00": the result holds no
    "Z"; a string without "Z" is left as it is; the rewriting goes
    through concatenation, and doing it twice changes nothing more. *)
Theorem replace_Z_removes_every_Z (s s' : string) :
  has_Z (replace_Z s) = false
  /\ (has_Z s = false -> replace_Z s = s)
  /\ replace_Z (s ++ s') = (replace_Z s ++ replace_Z s')%string
  /\ replace_Z (replace_Z s) = replace_Z s.
Proof.
  assert (Hno : forall x, has_Z (replace_Z x) = false).
  { induction x as [| c x IH]; simpl; [reflexivity |].
    destruct (c =? "Z")%char eqn:Ec; simpl.
    - exact IH.
    - rewrite Ec. exact IH. }
  assert (Hid : forall x, has_Z x = false -> replace_Z x = x).
  { induction x as [| c x IH]; simpl; [reflexivity |].
    destruct (c =? "Z")%char; simpl; [discriminate |].
    intros H. rewrite IH by exact H. reflexivity. }
  split; [apply Hno |]. split; [apply Hid |]. split; [| apply Hid, Hno].
  induction s as [| c s IH]; simpl; [reflexivity |].
  destruct (c =? "Z")%char; rewrite IH; reflexivity.
Qed.
